(** * koa-fp-ts-router: the routing middleware of [src/index.ts]

    A shallow embedding of the [Router] class and the properties of its
    dispatcher ([routes]), its allowed-methods resolver ([allowedMethods]),
    its registration methods and its redirect registrar.

    The class is written against three libraries that are not part of the
    repository: fp-ts-routing (routes, parsers, formatters), koa-compose
    (middleware chaining) and Koa (the per-request context).  The
    combinators of fp-ts-routing and the chaining of koa-compose that
    [index.ts] calls are modelled in the first half of the file.  What the
    router only calls is left open in the class [Host]: how a path string
    becomes a route or makes [Route.parse] throw, how a route is printed,
    what Koa's response does with a status, a body, a header or a
    redirect, and what the host makes of a middleware that returns or
    throws. *)

From stdpp Require Import base option list strings gmap.

Open Scope Z_scope.

(** ** fp-ts-routing *)

(** [Route]: the segments of a path and its query. *)
Record Route := mkRoute {
  parts : list string;
  query : list (string * string)
}.

(** [Route.empty] *)
Definition Route_empty : Route := {| parts := []; query := [] |}.

(** [Parser<A>]: its [run] field, [(r: Route) => Option<[A, Route]>]. *)
Definition Parser (A : Type) : Type := Route -> option (A * Route).

(** [zero()]: [new Parser(() => none)]. *)
Definition zero {A} : Parser A := fun _ => None.

(** [Parser.prototype.alt]: run [this]; only when it fails run [that]. *)
Definition Parser_alt {A} (this that : Parser A) : Parser A :=
  fun r =>
    match this r with
    | Some oa => Some oa
    | None => that r
    end.

(** [Parser.prototype.map]: apply [f] to the parsed value and keep the
    remaining route. *)
Definition Parser_map {A B} (f : A -> B) (this : Parser A) : Parser B :=
  fun r =>
    match this r with
    | Some (a, rest) => Some (f a, rest)
    | None => None
    end.

(** [parse(parser, r, a)]: the parsed value, or the default [a] when the
    parser fails; what is left of the route is dropped. *)
Definition parse {A} (parser : Parser A) (r : Route) (a : A) : A :=
  match parser r with
  | Some (x, _) => x
  | None => a
  end.

(** [Formatter<A>]: its [run] field, [(r: Route, a: A) => Route]. *)
Definition Formatter (A : Type) : Type := Route -> A -> Route.

(** [Match<A>]: a parser together with the formatter of the same pattern. *)
Record Match (A : Type) := mkMatch {
  parser : Parser A;
  formatter : Formatter A
}.
Arguments mkMatch {A} _ _.
Arguments parser {A} _.
Arguments formatter {A} _.

(** ** Koa *)

(** The context of a request as the router sees it: the method and the
    path it reads, the field [params] it attaches (a value of the
    type-erased type [P]), and Koa's response object [W], which the router
    reaches only through the setters [ctx.status], [ctx.body], [ctx.set]
    and the helper [ctx.redirect]. *)
Record KoaContext (P W : Type) := mkCtx {
  method : string;
  path : string;
  params : P;
  response : W
}.
Arguments mkCtx {P W} _ _ _ _.
Arguments method {P W} _.
Arguments path {P W} _.
Arguments params {P W} _.
Arguments response {P W} _.

(** [ctx.params = p]: a write to a plain property of the context. *)
Definition set_params {P W} (ctx : KoaContext P W) (p : P) : KoaContext P W :=
  mkCtx (method ctx) (path ctx) p (response ctx).

(** The context is one mutable object shared by the whole chain, so a
    continuation is run on the context as it is when [next()] is called.
    What it gives back, the outcome [R] of the rest of the request, is
    whatever the host makes of a settled promise: fulfilled with the final
    context, or rejected with an error that was thrown. *)
Definition Next (P W R : Type) : Type := KoaContext P W -> R.

(** [Middleware]: [(ctx, next) => ...]. *)
Definition Middleware (P W R : Type) : Type := KoaContext P W -> Next P W R -> R.

(** ** koa-compose *)

(** [compose(middleware)(context, next)]: [dispatch(i)] runs the [i]-th
    middleware with [dispatch(i + 1)] as its [next]; past the end of the
    array it runs the [next] the composed middleware was called with.
    The rejection of a second call of the same [next] is outside this
    model: a middleware is a function of the context and of its
    continuation. *)
Fixpoint compose {P W R} (middleware : list (Middleware P W R)) : Middleware P W R :=
  fun context next =>
    match middleware with
    | [] => next context
    | fn :: rest => fn context (fun context' => compose rest context' next)
    end.

(** ** JavaScript *)

(** [array.filter(callback)] with a callback that may throw: the elements
    are tested in order, the first exception ends the call, and the
    elements that pass are kept in order. *)
Fixpoint filter_throwing {A E} (callback : A -> E + bool) (array : list A) : E + list A :=
  match array with
  | [] => inr []
  | x :: rest =>
      match callback x with
      | inl e => inl e
      | inr keep =>
          match filter_throwing callback rest with
          | inl e => inl e
          | inr kept => inr (if keep then x :: kept else kept)
          end
      end
  end.

(** ** What the router leaves to its collaborators *)

Class Host := {
  (** the values stored in [ctx.params] *)
  Params : Type;
  (** Koa's response object *)
  Response : Type;
  (** the errors the collaborators throw *)
  Failure : Type;
  (** the outcomes of running a middleware *)
  Outcome : Type;
  (** the outcome of a middleware that returns without calling [next],
      on the context as it leaves it *)
  finished : KoaContext Params Response -> Outcome;
  (** the outcome of a middleware that throws, on the context as it is
      then *)
  thrown : Failure -> KoaContext Params Response -> Outcome;
  (** [Route.parse(path)]: the route, or the error it throws (a malformed
      percent escape makes [decodeURIComponent] throw) *)
  Route_parse : string -> Failure + Route;
  (** [route.toString()]: the string, or the error it throws
      ([encodeURIComponent] throws on a lone surrogate) *)
  Route_toString : Route -> Failure + string;
  (** [response.status = code]: the response after the assignment, or the
      error the setter throws *)
  response_set_status : Response -> Z -> Failure + Response;
  (** [response.body = val] for a string *)
  response_set_body : Response -> string -> Response;
  (** [response.set(field, val)] *)
  response_set : Response -> string -> string -> Response;
  (** [response.redirect(url)] *)
  response_redirect : Response -> string -> Response;
  (** Koa's status setter asserts that the code is an integer from 100 to
      999 and does not throw on such a code *)
  response_set_status_accepts :
    forall (w : Response) (code : Z),
      100 <= code <= 999 -> exists w', response_set_status w code = inr w'
}.

(** [ctx.status = code]: delegated to the response. *)
Definition set_status `{Host} (ctx : KoaContext Params Response) (code : Z)
    : Failure + KoaContext Params Response :=
  match response_set_status (response ctx) code with
  | inl e => inl e
  | inr w => inr (mkCtx (method ctx) (path ctx) (params ctx) w)
  end.

(** [ctx.body = val]: delegated to the response. *)
Definition set_body `{Host} (ctx : KoaContext Params Response) (val : string)
    : KoaContext Params Response :=
  mkCtx (method ctx) (path ctx) (params ctx) (response_set_body (response ctx) val).

(** [ctx.set(field, val)]: delegated to the response. *)
Definition set_header `{Host} (ctx : KoaContext Params Response) (field val : string)
    : KoaContext Params Response :=
  mkCtx (method ctx) (path ctx) (params ctx) (response_set (response ctx) field val).

(** [ctx.redirect(url)]: delegated to the response. *)
Definition ctx_redirect `{Host} (ctx : KoaContext Params Response) (url : string)
    : KoaContext Params Response :=
  mkCtx (method ctx) (path ctx) (params ctx) (response_redirect (response ctx) url).

(** [format(formatter, a)]: [formatter.run(Route.empty, a).toString()]. *)
Definition format `{Host} {A} (formatter : Formatter A) (a : A) : Failure + string :=
  Route_toString (formatter Route_empty a).

(** ** The router *)

(** [Exclude<Method, 'OPTIONS'>]: the keys of the parser table. *)
Inductive RouteMethod := DELETE | GET | HEAD | PATCH | POST | PUT.

(** [Method]: a key of the parser table, or ['OPTIONS']. *)
Inductive Method :=
| Routed (m : RouteMethod)
| OPTIONS.

#[global] Instance RouteMethod_eq_dec : EqDecision RouteMethod.
Proof. solve_decision. Defined.

(** The string a method is in the source. *)
Definition method_name (m : RouteMethod) : string :=
  match m with
  | DELETE => "DELETE"
  | GET => "GET"
  | HEAD => "HEAD"
  | PATCH => "PATCH"
  | POST => "POST"
  | PUT => "PUT"
  end.

(** [Record<Exclude<Method, 'OPTIONS'>, Parser<Middleware>>], for the
    middleware type [M]. *)
Record ParserTable (M : Type) := mkParsers {
  slot_DELETE : Parser M;
  slot_GET : Parser M;
  slot_HEAD : Parser M;
  slot_PATCH : Parser M;
  slot_POST : Parser M;
  slot_PUT : Parser M
}.
Arguments mkParsers {M} _ _ _ _ _ _.
Arguments slot_DELETE {M} _.
Arguments slot_GET {M} _.
Arguments slot_HEAD {M} _.
Arguments slot_PATCH {M} _.
Arguments slot_POST {M} _.
Arguments slot_PUT {M} _.

(** [parsers[m]] *)
Definition slot {M} (t : ParserTable M) (m : RouteMethod) : Parser M :=
  match m with
  | DELETE => slot_DELETE t
  | GET => slot_GET t
  | HEAD => slot_HEAD t
  | PATCH => slot_PATCH t
  | POST => slot_POST t
  | PUT => slot_PUT t
  end.

(** [parsers[m] = p] *)
Definition set_slot {M} (t : ParserTable M) (m : RouteMethod) (p : Parser M)
    : ParserTable M :=
  match m with
  | DELETE => mkParsers p (slot_GET t) (slot_HEAD t) (slot_PATCH t) (slot_POST t) (slot_PUT t)
  | GET => mkParsers (slot_DELETE t) p (slot_HEAD t) (slot_PATCH t) (slot_POST t) (slot_PUT t)
  | HEAD => mkParsers (slot_DELETE t) (slot_GET t) p (slot_PATCH t) (slot_POST t) (slot_PUT t)
  | PATCH => mkParsers (slot_DELETE t) (slot_GET t) (slot_HEAD t) p (slot_POST t) (slot_PUT t)
  | POST => mkParsers (slot_DELETE t) (slot_GET t) (slot_HEAD t) (slot_PATCH t) p (slot_PUT t)
  | PUT => mkParsers (slot_DELETE t) (slot_GET t) (slot_HEAD t) (slot_PATCH t) (slot_POST t) p
  end.

(** The two private fields of the class. *)
Record Router (M : Type) := mkRouter {
  middlewares : list M;
  parsers : ParserTable M
}.
Arguments mkRouter {M} _ _.
Arguments middlewares {M} _.
Arguments parsers {M} _.

(** [new Router()] *)
Definition constructor {M} : Router M :=
  {| middlewares := [];
     parsers := {| slot_DELETE := zero;
                   slot_GET := zero;
                   slot_HEAD := zero;
                   slot_PATCH := zero;
                   slot_POST := zero;
                   slot_PUT := zero |} |}.

(** [parseMethod(str)] *)
Definition parseMethod (str : string) : option Method :=
  if String.eqb str "DELETE" then Some (Routed DELETE)
  else if String.eqb str "GET" then Some (Routed GET)
  else if String.eqb str "HEAD" then Some (Routed HEAD)
  else if String.eqb str "OPTIONS" then Some OPTIONS
  else if String.eqb str "PATCH" then Some (Routed PATCH)
  else if String.eqb str "PUT" then Some (Routed PUT)
  else if String.eqb str "POST" then Some (Routed POST)
  else None.

Section Router.
Context `{Host}.

Local Abbreviation Ctx := (KoaContext Params Response).
Local Abbreviation Mw := (Middleware Params Response Outcome).

(** The parsed value of the slot on the route, or [null]:
    [parse(parser, route, null)]. *)
Definition parse_or_null (p : Parser Mw) (route : Route) : option Mw :=
  parse (Parser_map Some p) route None.

(** The function [register] maps over the match's parser: for the parsed
    parameters it gives the handler that first stores them in the context
    and then runs [middleware] with the same [next]. *)
Definition inject (middleware : Mw) (params_ : Params) : Mw :=
  fun ctx next => middleware (set_params ctx params_) next.

(** [match.parser.map(params => function (ctx, next) {...})] *)
Definition route_parser (match_ : Match Params) (middleware : Mw) : Parser Mw :=
  Parser_map (inject middleware) (parser match_).

(** [register(method, match, middleware)]: the slot of the method becomes
    its old value [alt] the parser of the new route. *)
Definition register (method : RouteMethod) (match_ : Match Params)
    (middleware : Mw) (this : Router Mw) : Router Mw :=
  let parser := route_parser match_ middleware in
  {| middlewares := middlewares this;
     parsers := set_slot (parsers this) method
                  (Parser_alt (slot (parsers this) method) parser) |}.

(** [delete(match, middleware)] *)
Definition delete (match_ : Match Params) (middleware : Mw) (this : Router Mw)
    : Router Mw :=
  register DELETE match_ middleware this.

(** [get(match, middleware)] *)
Definition get (match_ : Match Params) (middleware : Mw) (this : Router Mw)
    : Router Mw :=
  register HEAD match_ middleware (register GET match_ middleware this).

(** [patch(match, middleware)] *)
Definition patch (match_ : Match Params) (middleware : Mw) (this : Router Mw)
    : Router Mw :=
  register PATCH match_ middleware this.

(** [post(match, middleware)] *)
Definition post (match_ : Match Params) (middleware : Mw) (this : Router Mw)
    : Router Mw :=
  register POST match_ middleware this.

(** [put(match, middleware)] *)
Definition put (match_ : Match Params) (middleware : Mw) (this : Router Mw)
    : Router Mw :=
  register PUT match_ middleware this.

(** [all(match, middleware)]: [forEach] over the five methods, in order. *)
Definition all (match_ : Match Params) (middleware : Mw) (this : Router Mw)
    : Router Mw :=
  foldl (fun this' method => register method match_ middleware this')
        this [DELETE; GET; PATCH; POST; PUT].

(** The handler [redirect] registers:
    [const params = f(ctx.params); const path = format(dest.formatter, params);
     ctx.redirect(path); ctx.status = code]. *)
Definition redirect_handler (dest : Match Params) (f : Params -> Params)
    (code : Z) : Mw :=
  fun ctx _ =>
    let params_ := f (params ctx) in
    match format (formatter dest) params_ with
    | inl e => thrown e ctx
    | inr path_ =>
        let redirected := ctx_redirect ctx path_ in
        match set_status redirected code with
        | inl e => thrown e redirected
        | inr assigned => finished assigned
        end
    end.

(** [redirect(src, dest, f, code = 302)]: [code] is [None] when the call
    gives no fourth argument.  The codes are integers; a [number] that is
    not one is outside this model. *)
Definition redirect (src dest : Match Params) (f : Params -> Params)
    (code : option Z) (this : Router Mw) : Router Mw :=
  all src (redirect_handler dest f (default 302 code)) this.

(** [use(middleware)]: [this.middlewares.push(middleware)]. *)
Definition use (middleware : Mw) (this : Router Mw) : Router Mw :=
  {| middlewares := middlewares this ++ [middleware];
     parsers := parsers this |}.

(** [routes()] *)
Definition routes (this : Router Mw) : Mw :=
  fun ctx next =>
    match parseMethod (method ctx) with
    | None => next ctx
    | Some OPTIONS => next ctx
    | Some (Routed method_) =>
        let parser := slot (parsers this) method_ in
        match Route_parse (path ctx) with
        | inl e => thrown e ctx
        | inr route =>
            match parse_or_null parser route with
            | None => next ctx
            | Some middleware => compose (middlewares this ++ [middleware]) ctx next
            end
        end
    end.

(** The local constant [allowedMethods] of the resolver: the methods of
    the fixed array for which the callback of [filter], which parses the
    path anew for each of them, finds that the slot parses the route. *)
Definition allowed (this : Router Mw) (path_ : string) : Failure + list RouteMethod :=
  filter_throwing
    (fun m =>
       let parser := slot (parsers this) m in
       match Route_parse path_ with
       | inl e => inl e
       | inr route =>
           inr (match parse_or_null parser route with
                | Some _ => true
                | None => false
                end)
       end)
    [DELETE; GET; HEAD; PATCH; POST; PUT].

(** [allowedMethods.join(', ')] *)
Definition allow_value (allowedMethods_ : list RouteMethod) : string :=
  String.concat ", " (method_name <$> allowedMethods_).

(** [allowedMethods()] *)
Definition allowedMethods (this : Router Mw) : Mw :=
  fun ctx next =>
    match parseMethod (method ctx) with
    | None =>
        match set_status ctx 501 with
        | inl e => thrown e ctx
        | inr assigned => finished assigned
        end
    | Some method_ =>
        match allowed this (path ctx) with
        | inl e => thrown e ctx
        | inr allowedMethods_ =>
            match method_ with
            | OPTIONS =>
                match set_status ctx 200 with
                | inl e => thrown e ctx
                | inr assigned =>
                    finished (set_header (set_body assigned "")
                                         "Allow" (allow_value allowedMethods_))
                end
            | Routed m =>
                if bool_decide (m ∈ allowedMethods_) then next ctx
                else
                  match set_status ctx 405 with
                  | inl e => thrown e ctx
                  | inr assigned =>
                      finished (set_header assigned "Allow" (allow_value allowedMethods_))
                  end
            end
        end
    end.

(** *** Configuration

    The route table is built by a sequence of calls of the public methods
    before the router serves requests. *)
Inductive Call :=
| CallDelete (match_ : Match Params) (middleware : Mw)
| CallGet (match_ : Match Params) (middleware : Mw)
| CallPatch (match_ : Match Params) (middleware : Mw)
| CallPost (match_ : Match Params) (middleware : Mw)
| CallPut (match_ : Match Params) (middleware : Mw)
| CallRedirect (src dest : Match Params) (f : Params -> Params) (code : option Z)
| CallUse (middleware : Mw).

(** One call of a public method on the router. *)
Definition call (this : Router Mw) (c : Call) : Router Mw :=
  match c with
  | CallDelete m h => delete m h this
  | CallGet m h => get m h this
  | CallPatch m h => patch m h this
  | CallPost m h => post m h this
  | CallPut m h => put m h this
  | CallRedirect src dest f code => redirect src dest f code this
  | CallUse mw => use mw this
  end.

(** The router after the calls [cs], made in order on [this]. *)
Definition configure (cs : list Call) (this : Router Mw) : Router Mw :=
  foldl call this cs.

(** The routes one call registers, in the order it registers them (lemma
    [parsers_call] relates it to the methods above). *)
Definition registrations (c : Call) : list (RouteMethod * (Match Params * Mw)) :=
  match c with
  | CallDelete m h => [(DELETE, (m, h))]
  | CallGet m h => [(GET, (m, h)); (HEAD, (m, h))]
  | CallPatch m h => [(PATCH, (m, h))]
  | CallPost m h => [(POST, (m, h))]
  | CallPut m h => [(PUT, (m, h))]
  | CallRedirect src dest f code =>
      (fun m => (m, (src, redirect_handler dest f (default 302 code))))
        <$> [DELETE; GET; PATCH; POST; PUT]
  | CallUse _ => []
  end.

(** What registering one route does to the table. *)
Definition table_register (t : ParserTable Mw)
    (e : RouteMethod * (Match Params * Mw)) : ParserTable Mw :=
  set_slot t e.1 (Parser_alt (slot t e.1) (route_parser e.2.1 e.2.2)).

(** The routes registered under [m] by the calls [cs], oldest first. *)
Definition registered (m : RouteMethod) (cs : list Call)
    : list (Match Params * Mw) :=
  snd <$> filter (fun e => e.1 = m) (cs ≫= registrations).

(** Their parsers, as [register] builds them. *)
Definition registered_parsers (m : RouteMethod) (cs : list Call) : list (Parser Mw) :=
  (fun e => route_parser e.1 e.2) <$> registered m cs.

(** The middlewares given to [use] by the calls [cs], oldest first. *)
Definition used (cs : list Call) : list Mw :=
  cs ≫= (fun c => match c with CallUse mw => [mw] | _ => [] end).

(** A middleware that does nothing but [return next()]. *)
Definition passes_on (mw : Mw) : Prop :=
  forall ctx next, mw ctx next = next ctx.

(** A middleware that returns without calling [next], leaving the context
    as [g] makes it. *)
Definition answers (mw : Mw) (g : Ctx -> Ctx) : Prop :=
  forall ctx next, mw ctx next = finished (g ctx).

(** Whether a call is a call of [redirect]. *)
Definition is_redirect (c : Call) : bool :=
  match c with CallRedirect _ _ _ _ => true | _ => false end.

(** The patterns given to [get] by the calls [cs]. *)
Definition get_patterns (cs : list Call) : list (Match Params) :=
  cs ≫= (fun c => match c with CallGet m _ => [m] | _ => [] end).

(** Ordered alternation as the specification words it: the parsers are
    tried in the order of the list and the first one that succeeds gives
    the result. *)
Fixpoint first_match {A} (ps : list (Parser A)) : Parser A :=
  fun r =>
    match ps with
    | [] => None
    | p :: ps' =>
        match p r with
        | Some oa => Some oa
        | None => first_match ps' r
        end
    end.

(** The methods [allowedMethods] tests, in the order of its array. *)
Definition canonical_methods : list RouteMethod :=
  [DELETE; GET; HEAD; PATCH; POST; PUT].

(** The methods of the array whose slot parses a route: what [allowed]
    computes once [Route.parse] has returned the route. *)
Definition allowed_on (this : Router Mw) (route : Route) : list RouteMethod :=
  filter (fun m => is_Some (slot (parsers this) m route)) canonical_methods.

(** The method strings [parseMethod] recognizes. *)
Definition recognized : list string :=
  ["DELETE"; "GET"; "HEAD"; "OPTIONS"; "PATCH"; "PUT"; "POST"].

(** The string a value of [Method] is in the source. *)
Definition Method_name (M : Method) : string :=
  match M with
  | Routed m => method_name m
  | OPTIONS => "OPTIONS"
  end.

(** The two middlewares of the router as the test suite mounts them:
    [app.use(router.routes()); app.use(router.allowedMethods())]. *)
Definition mounted (this : Router Mw) : Mw :=
  compose [routes this; allowedMethods this].

End Router.

(** ** A concrete host, for running the router on the requests of the
    test suite ([src/index.test.ts]) *)

Module Test.

(** Parameters are objects with string fields. *)
Abbreviation Obj := (gmap string string).

(** What a middleware asked of Koa's response. *)
Inductive Write :=
| SetStatus (code : Z)
| SetBody (val : string)
| SetHeader (field val : string)
| Redirect (url : string).

(** The response is known by the calls made on it, oldest first. *)
Abbreviation Writes := (list Write).

(** The errors of the collaborators: [decodeURIComponent] and
    [encodeURIComponent] throw a [URIError], the assertions of Koa's status
    setter an [AssertionError]. *)
Inductive Error := URIError | AssertionError.

(** A settled promise: fulfilled, or rejected with an error, on the
    context as the chain left it. *)
Inductive Settled :=
| Fulfilled (ctx : KoaContext Obj Writes)
| Rejected (e : Error) (ctx : KoaContext Obj Writes).

(** The value of a hexadecimal digit. *)
Definition hex_value (c : Ascii.ascii) : option Z :=
  let n := Z.of_N (Ascii.N_of_ascii c) in
  if bool_decide (48 <= n <= 57) then Some (n - 48)
  else if bool_decide (65 <= n <= 70) then Some (n - 55)
  else if bool_decide (97 <= n <= 102) then Some (n - 87)
  else None.

(** The bytes that may follow the first byte of a multi-byte UTF-8
    sequence, as ranges, or [None] when the byte cannot start one. *)
Definition continuation (b : Z) : option (list (Z * Z)) :=
  if bool_decide (194 <= b <= 223) then Some [(128, 191)]
  else if bool_decide (b = 224) then Some [(160, 191); (128, 191)]
  else if bool_decide (225 <= b <= 236) then Some [(128, 191); (128, 191)]
  else if bool_decide (b = 237) then Some [(128, 159); (128, 191)]
  else if bool_decide (238 <= b <= 239) then Some [(128, 191); (128, 191)]
  else if bool_decide (b = 240) then Some [(144, 191); (128, 191); (128, 191)]
  else if bool_decide (241 <= b <= 243) then Some [(128, 191); (128, 191); (128, 191)]
  else if bool_decide (b = 244) then Some [(128, 143); (128, 191); (128, 191)]
  else None.

(** [decodeURIComponent(s)] on a string held as its UTF-8 bytes: every
    escape [%XX] becomes the byte [XX]; [None] stands for the [URIError]
    thrown when a [%] is not followed by two hexadecimal digits or when the
    escaped bytes are not well-formed UTF-8.  [pending] holds the ranges of
    the continuation bytes still due. *)
Fixpoint decodeURIComponent_from (pending : list (Z * Z)) (s : string) : option string :=
  match s with
  | EmptyString => match pending with [] => Some EmptyString | _ => None end
  | String c rest =>
      if Ascii.eqb c (Ascii.ascii_of_nat 37)
      then
        match rest with
        | String h1 (String h2 rest') =>
            match hex_value h1, hex_value h2 with
            | Some a, Some b =>
                let byte := (16 * a + b) in
                match pending with
                | (lo, hi) :: pending' =>
                    if bool_decide (lo <= byte <= hi)
                    then String (Ascii.ascii_of_N (Z.to_N byte))
                           <$> decodeURIComponent_from pending' rest'
                    else None
                | [] =>
                    if bool_decide (byte < 128)
                    then String (Ascii.ascii_of_N (Z.to_N byte))
                           <$> decodeURIComponent_from [] rest'
                    else
                      match continuation byte with
                      | Some due =>
                          String (Ascii.ascii_of_N (Z.to_N byte))
                            <$> decodeURIComponent_from due rest'
                      | None => None
                      end
                end
            | _, _ => None
            end
        | _ => None
        end
      else
        match pending with
        | [] => String c <$> decodeURIComponent_from [] rest
        | _ => None
        end
  end.

Definition decodeURIComponent (s : string) : option string :=
  decodeURIComponent_from [] s.

(** A hexadecimal digit, in upper case. *)
Definition hex_digit (n : Z) : Ascii.ascii :=
  if bool_decide (n < 10) then Ascii.ascii_of_N (Z.to_N (48 + n)) else Ascii.ascii_of_N (Z.to_N (55 + n)).

(** The characters [encodeURIComponent] leaves as they are: letters,
    digits and [- _ . ! ~ * ' ( )]. *)
Definition unreserved (c : Ascii.ascii) : bool :=
  let n := Z.of_N (Ascii.N_of_ascii c) in
  bool_decide ((48 <= n <= 57) \/ (65 <= n <= 90) \/ (97 <= n <= 122) \/
               n ∈ [45; 95; 46; 33; 126; 42; 39; 40; 41]).

(** [encodeURIComponent(s)] on a string held as its UTF-8 bytes: every
    other byte becomes [%XX]. *)
Fixpoint encodeURIComponent (s : string) : string :=
  match s with
  | EmptyString => EmptyString
  | String c rest =>
      if unreserved c then String c (encodeURIComponent rest)
      else
        let n := Z.of_N (Ascii.N_of_ascii c) in
        String (Ascii.ascii_of_nat 37)
          (String (hex_digit (n / 16)) (String (hex_digit (n mod 16))
             (encodeURIComponent rest)))
  end.

(** The segments of a path: [s.split('/').filter(Boolean)]. *)
Fixpoint split_path (s : string) (seg : string) : list string :=
  match s with
  | EmptyString => if String.eqb seg "" then [] else [seg]
  | String c s' =>
      if Ascii.eqb c (Ascii.ascii_of_nat 47)
      then (if String.eqb seg "" then [] else [seg]) ++ split_path s' ""
      else split_path s' (seg +:+ String c "")
  end.

(** [Route.parse(path)] for the path of a request: the segments, each
    decoded.  The path holds no query string, and what [url.parse] rewrites
    before the split ([?], [#], a backslash, white space at the ends) is
    taken not to occur in it. *)
Definition parse_path (s : string) : Error + Route :=
  match mapM decodeURIComponent (split_path s "") with
  | Some parts_ => inr {| parts := parts_; query := [] |}
  | None => inl URIError
  end.

(** [route.toString()]: the encoded segments behind slashes, and the
    query, when there is one, behind a question mark. *)
Definition print_route (r : Route) : Error + string :=
  let qs :=
    String.concat "&"
      ((fun kv => encodeURIComponent kv.1 +:+ "=" +:+ encodeURIComponent kv.2)
         <$> query r) in
  inr ("/" +:+ String.concat "/" (encodeURIComponent <$> parts r)
         +:+ (if String.eqb qs "" then "" else "?" +:+ qs)).

(** [response.status = code]: Koa asserts that the code is from 100 to
    999.  (A response whose headers were already sent ignores the
    assignment; no middleware here writes to the socket.) *)
Definition assign_status (w : Writes) (code : Z) : Error + Writes :=
  if bool_decide (100 <= code <= 999) then inr (w ++ [SetStatus code])
  else inl AssertionError.

Lemma assign_status_accepts (w : Writes) (code : Z) :
  100 <= code <= 999 -> exists w', assign_status w code = inr w'.
Proof.
  intros Hcode. unfold assign_status.
  rewrite bool_decide_eq_true_2 by exact Hcode. eauto.
Qed.

#[export] Instance host : Host := {|
  Params := Obj;
  Response := Writes;
  Failure := Error;
  Outcome := Settled;
  finished := Fulfilled;
  thrown := Rejected;
  Route_parse := parse_path;
  Route_toString := print_route;
  response_set_status := assign_status;
  response_set_body := fun w val => w ++ [SetBody val];
  response_set := fun w field val => w ++ [SetHeader field val];
  response_redirect := fun w url => w ++ [Redirect url];
  response_set_status_accepts := assign_status_accepts
|}.

(** The types of the host, written out. *)
Abbreviation Ctx := (KoaContext Obj Writes).
Abbreviation Mw := (Middleware Obj Writes Settled).

(** The matches of fp-ts-routing the tests use. *)

(** [end] *)
Definition end_ : Match Obj :=
  {| parser := fun r =>
       match parts r, query r with
       | [], [] => Some (∅, r)
       | _, _ => None
       end;
     formatter := fun r _ => r |}.

(** [lit(literal)] *)
Definition lit (literal : string) : Match Obj :=
  {| parser := fun r =>
       match parts r with
       | [] => None
       | head :: tail =>
           if String.eqb head literal
           then Some (∅, {| parts := tail; query := query r |})
           else None
       end;
     formatter := fun r _ => {| parts := parts r ++ [literal]; query := query r |} |}.

(** [str(k)] *)
Definition str (k : string) : Match Obj :=
  {| parser := fun r =>
       match parts r with
       | [] => None
       | head :: tail => Some ({[ k := head ]}, {| parts := tail; query := query r |})
       end;
     formatter := fun r o =>
       {| parts := parts r ++ [default "undefined" (o !! k)]; query := query r |} |}.

(** [a.then(b)]: parse with [a], then with [b] on what is left, and merge
    the two objects ([Object.assign({}, x, y)]). *)
Definition then_ (a b : Match Obj) : Match Obj :=
  {| parser := fun r =>
       match parser a r with
       | None => None
       | Some (x, r') =>
           match parser b r' with
           | None => None
           | Some (y, r'') => Some (y ∪ x, r'')
           end
       end;
     formatter := fun r ab => formatter b (formatter a r ab) ab |}.

(** The patterns of the test suite. *)
Definition root : Match Obj := end_.
Definition user : Match Obj := then_ (then_ (lit "users") (str "id")) end_.
Definition oldUser : Match Obj := then_ (str "userID") end_.
Definition newUser : Match Obj := then_ (then_ (lit "users") (str "id")) end_.

(** [({ userID }) => ({ id: userID })] *)
Definition rename (a : Obj) : Obj :=
  {[ "id" := default "undefined" (a !! "userID") ]}.

(** A request as Koa hands it to the first middleware: nothing was asked
    of the response yet and the context has no [params]. *)
Definition request (method_ path_ : string) : Ctx :=
  {| method := method_; path := path_; params := ∅; response := [] |}.

(** The end of the chain: nothing downstream touches the response. *)
Definition downstream : Next Obj Writes Settled := Fulfilled.

(** [function (ctx) { ctx.body = text }] *)
Definition respond (text : string) : Mw :=
  fun ctx _ => Fulfilled (set_body ctx text).

(** The handler of the test of [get]: [ctx.body = `Hello, ${ctx.params.id}!`]. *)
Definition hello : Mw :=
  fun ctx _ =>
    Fulfilled (set_body ctx ("Hello, " +:+ default "undefined" (params ctx !! "id") +:+ "!")).

(** The middleware of the test of [use], on a request without an
    [Authorization] header: [ctx.status = 401; return]. *)
Definition auth_missing : Mw :=
  fun ctx _ =>
    match set_status ctx 401 with
    | inl e => Rejected e ctx
    | inr assigned => Fulfilled assigned
    end.

(** The same middleware on a request with the header: [return next()]. *)
Definition auth_present : Mw :=
  fun ctx next => next ctx.

(** What [auth_missing] makes of the context. *)
Definition unauthorized (ctx : Ctx) : Ctx :=
  {| method := method ctx; path := path ctx; params := params ctx;
     response := response ctx ++ [SetStatus 401] |}.

(** The options object the test suite passes to [new Router]. *)
Record RouterOptions := { basePath : string }.

(** [new Router(options)]: the constructor declares no parameter, so the
    call evaluates its body without reading the argument. *)
Definition new_Router (options : RouterOptions) : Router Mw := constructor.

(** The routers the test suite builds. *)

(** [describe(Router.prototype.get)] *)
Definition get_calls : list Call :=
  [CallGet root (respond "Hello, world!"); CallGet user hello].

(** [describe(Router.prototype.allowedMethods)] *)
Definition allowedMethods_calls : list Call :=
  [CallGet root (respond "root"); CallPost root (respond "root")].

(** [describe(Router.prototype.use)], the request with or without the
    header deciding which of the two behaviours [auth] has. *)
Definition use_calls (auth : Mw) : list Call :=
  [CallUse auth; CallGet root (respond "Hello, world!")].

(** [describe(Router.prototype.redirect)], with the base path. *)
Definition redirect_router : Router Mw :=
  redirect oldUser newUser rename None (new_Router {| basePath := "/admin/" |}).

(** Routers on which a redirect source is also the pattern of an older
    route, is behind a global middleware that answers by itself, or
    stands next to a [get] route. *)
Definition shadowed_redirect_calls : list Call :=
  [CallGet oldUser (respond "profile"); CallRedirect oldUser newUser rename None].

Definition guarded_redirect_calls : list Call :=
  [CallUse auth_missing; CallRedirect oldUser newUser rename None].

Definition redirect_and_get_calls : list Call :=
  [CallRedirect oldUser newUser rename None; CallGet root (respond "Hello, world!")].

(** A redirect with the code 301, registered behind a [get] route. *)
Definition get_then_redirect_calls : list Call :=
  [CallGet root (respond "Hello, world!"); CallRedirect oldUser newUser rename (Some 301)].

(** A redirect with a code Koa's status setter rejects. *)
Definition zero_code_redirect_calls : list Call :=
  [CallRedirect oldUser newUser rename (Some 0)].

(** Two routes with the same pattern under one method. *)
Definition twice_calls : list Call :=
  [CallGet user hello; CallGet user (respond "second")].

(** The router of the test of [use] with [use] called last. *)
Definition use_last_calls (auth : Mw) : list Call :=
  [CallGet root (respond "Hello, world!"); CallUse auth].

(** A route whose handler only calls [next], behind a global middleware
    that does the same. *)
Definition passing_calls : list Call :=
  [CallUse auth_present; CallGet root auth_present].

(** [router.get(user, ...)] on a new router. *)
Definition user_router : Router Mw := get user hello constructor.

End Test.

Import Test.

(** * Properties *)

(** ** The collaborators' models *)

Lemma slot_set_slot {M} (t : ParserTable M) (m m' : RouteMethod) p :
  slot (set_slot t m p) m' = if decide (m = m') then p else slot t m'.
Proof. destruct m, m'; reflexivity. Qed.

Lemma first_match_cons_alt {A} (p q : Parser A) ps r :
  first_match (Parser_alt p q :: ps) r = first_match (p :: q :: ps) r.
Proof. simpl. unfold Parser_alt. destruct (p r); reflexivity. Qed.

Lemma first_match_zero {A} (ps : list (Parser A)) r :
  first_match (zero :: ps) r = first_match ps r.
Proof. reflexivity. Qed.

Lemma first_match_None {A} (ps : list (Parser A)) r :
  first_match ps r = None <-> Forall (fun p => p r = None) ps.
Proof.
  induction ps as [|p ps IH]; simpl.
  - split; [constructor | reflexivity].
  - destruct (p r) eqn:E.
    + split; [discriminate |]. intros Hall. inversion Hall; congruence.
    + rewrite IH. split; [intros; constructor; assumption |].
      intros Hall. inversion Hall; assumption.
Qed.

(** The first parser that succeeds decides: the parsers before it fail and
    the parsers after it are not consulted. *)
Lemma first_match_at {A} (ps : list (Parser A)) r (i : nat) p v :
  ps !! i = Some p -> p r = Some v ->
  (forall k q, (k < i)%nat -> ps !! k = Some q -> q r = None) ->
  first_match ps r = Some v.
Proof.
  revert i. induction ps as [|q ps IH]; intros i Hi Hp Hbefore; [discriminate |].
  destruct i as [|i]; simpl in *.
  - injection Hi as ->. rewrite Hp. reflexivity.
  - rewrite (Hbefore 0%nat q) by (reflexivity || lia).
    apply (IH i); [assumption | assumption |].
    intros k q' Hk Hq'. apply (Hbefore (S k) q'); [lia | assumption].
Qed.

(** Whatever is registered behind a parser that succeeds is irrelevant. *)
Lemma first_match_take {A} (ps : list (Parser A)) r (i : nat) p :
  ps !! i = Some p -> is_Some (p r) ->
  first_match ps r = first_match (take (S i) ps) r.
Proof.
  revert i. induction ps as [|q ps IH]; intros i Hi Hp; [discriminate |].
  destruct i as [|i]; simpl in *.
  - injection Hi as ->. destruct Hp as [v ->]. reflexivity.
  - destruct (q r); [reflexivity |]. apply (IH i); assumption.
Qed.

Lemma first_match_app {A} (ps qs : list (Parser A)) r :
  first_match (ps ++ qs) r =
  match first_match ps r with
  | Some oa => Some oa
  | None => first_match qs r
  end.
Proof.
  induction ps as [|p ps IH]; simpl; [reflexivity |].
  destruct (p r); [reflexivity | exact IH].
Qed.

Lemma parseMethod_name (m : RouteMethod) :
  parseMethod (method_name m) = Some (Routed m).
Proof. destruct m; reflexivity. Qed.

Lemma parseMethod_OPTIONS : parseMethod "OPTIONS" = Some OPTIONS.
Proof. reflexivity. Qed.

Lemma parseMethod_unrecognized (str : string) :
  str ∉ recognized -> parseMethod str = None.
Proof.
  intros Hn. unfold parseMethod.
  repeat match goal with
  | |- context [String.eqb str ?lit] =>
      destruct (String.eqb_spec str lit) as [->|_];
      [exfalso; apply Hn; unfold recognized; set_solver |]
  end.
  reflexivity.
Qed.

Lemma parseMethod_recognized (str : string) :
  str ∈ recognized -> is_Some (parseMethod str).
Proof.
  unfold recognized. rewrite !elem_of_cons, elem_of_nil.
  intros [->|[->|[->|[->|[->|[->|[->|[]]]]]]]]; vm_compute; eauto.
Qed.

Lemma first_match_is_Some {A} (ps : list (Parser A)) r :
  is_Some (first_match ps r) <-> Exists (fun p => is_Some (p r)) ps.
Proof.
  induction ps as [|p ps IH]; simpl.
  - split; [intros [? ?]; discriminate | intros HE; inversion HE].
  - rewrite Exists_cons. destruct (p r) eqn:E.
    + split; [left; eauto | eauto].
    + rewrite IH. split; [right; assumption |].
      intros [[? ?]|HE]; [discriminate | assumption].
Qed.

Lemma parseMethod_inv (str : string) (M : Method) :
  parseMethod str = Some M -> str = Method_name M.
Proof.
  unfold parseMethod.
  repeat match goal with
  | |- context [String.eqb str ?lit] =>
      destruct (String.eqb_spec str lit) as [->|_];
      [intros [= <-]; reflexivity |]
  end.
  discriminate.
Qed.

Lemma parseMethod_eq_OPTIONS (str : string) :
  str = "OPTIONS" -> parseMethod str = Some OPTIONS.
Proof. intros ->. reflexivity. Qed.

Lemma parseMethod_eq_name (str : string) (m : RouteMethod) :
  str = method_name m -> parseMethod str = Some (Routed m).
Proof. intros ->. apply parseMethod_name. Qed.

(** A callback that never throws makes [filter_throwing] the filter of the
    elements it accepts. *)
Lemma filter_throwing_returns {A E} (P : A -> Prop) `{forall x, Decision (P x)}
    (callback : A -> E + bool) (array : list A) :
  (forall x, callback x = inr (bool_decide (P x))) ->
  filter_throwing callback array = inr (filter P array).
Proof.
  intros Hcb. induction array as [|x rest IH]; [reflexivity |].
  simpl. rewrite Hcb, IH, filter_cons.
  destruct (decide (P x)) as [HP|HP].
  - rewrite bool_decide_eq_true_2 by exact HP. reflexivity.
  - rewrite bool_decide_eq_false_2 by exact HP. reflexivity.
Qed.

(** A callback that throws on the first element ends the call. *)
Lemma filter_throwing_throws {A E} (callback : A -> E + bool) x (rest : list A) e :
  callback x = inl e -> filter_throwing callback (x :: rest) = inl e.
Proof. intros Hcb. simpl. rewrite Hcb. reflexivity. Qed.

Lemma filter_throwing_ext {A E} (f g : A -> E + bool) (array : list A) :
  (forall x, f x = g x) -> filter_throwing f array = filter_throwing g array.
Proof.
  intros Hfg. induction array as [|x rest IH]; [reflexivity |].
  simpl. rewrite Hfg, IH. reflexivity.
Qed.

Lemma compose_passes_on `{Host}
    (mws : list (Middleware Params Response Outcome)) mw ctx next :
  Forall passes_on mws -> compose (mws ++ [mw]) ctx next = mw ctx next.
Proof.
  intros Hall. revert ctx. induction Hall as [|fn rest Hfn _ IH]; intros ctx.
  - reflexivity.
  - simpl. rewrite Hfn. apply IH.
Qed.

Lemma compose_skip_passes_on `{Host}
    (pre l : list (Middleware Params Response Outcome)) ctx next :
  Forall passes_on pre -> compose (pre ++ l) ctx next = compose l ctx next.
Proof.
  intros Hall. revert ctx. induction Hall as [|fn rest Hfn _ IH]; intros ctx.
  - reflexivity.
  - simpl. rewrite Hfn. apply IH.
Qed.

Section Properties.
Context `{Host}.

Local Abbreviation Ctx := (KoaContext Params Response).
Local Abbreviation Mw := (Middleware Params Response Outcome).

Implicit Types (this r : Router Mw) (ctx : Ctx)
  (next : Next Params Response Outcome) (m : RouteMethod) (cs : list Call)
  (p src dest : Match Params) (h : Mw) (route : Route).

(** ** Parsing a slot *)

Lemma parse_or_null_Some (q : Parser Mw) route mw rest :
  q route = Some (mw, rest) -> parse_or_null q route = Some mw.
Proof. intros E. unfold parse_or_null, parse, Parser_map. rewrite E. reflexivity. Qed.

Lemma parse_or_null_None (q : Parser Mw) route :
  q route = None -> parse_or_null q route = None.
Proof. intros E. unfold parse_or_null, parse, Parser_map. rewrite E. reflexivity. Qed.

Lemma parse_or_null_fst (q : Parser Mw) route :
  parse_or_null q route = fst <$> q route.
Proof.
  unfold parse_or_null, parse, Parser_map.
  destruct (q route) as [[mw rest]|]; reflexivity.
Qed.

Lemma route_parser_Some p h route a rest :
  parser p route = Some (a, rest) ->
  route_parser p h route = Some (inject h a, rest).
Proof. intros E. unfold route_parser, Parser_map. rewrite E. reflexivity. Qed.

Lemma route_parser_None p h route :
  parser p route = None -> route_parser p h route = None.
Proof. intros E. unfold route_parser, Parser_map. rewrite E. reflexivity. Qed.

Lemma route_parser_is_Some p h route :
  is_Some (route_parser p h route) <-> is_Some (parser p route).
Proof.
  unfold route_parser, Parser_map.
  destruct (parser p route) as [[a rest]|]; split; intros [? ?]; eauto; discriminate.
Qed.

(** ** Koa's status setter *)

Lemma set_status_returns ctx code (w : Response) :
  response_set_status (response ctx) code = inr w ->
  set_status ctx code =
    inr {| method := method ctx; path := path ctx; params := params ctx; response := w |}.
Proof. intros E. unfold set_status. rewrite E. reflexivity. Qed.

Lemma set_status_throws ctx code (e : Failure) :
  response_set_status (response ctx) code = inl e -> set_status ctx code = inl e.
Proof. intros E. unfold set_status. rewrite E. reflexivity. Qed.

(** ** Registration *)

Lemma slot_register m m' p h r :
  slot (parsers (register m p h r)) m' =
  if decide (m = m') then Parser_alt (slot (parsers r) m) (route_parser p h)
  else slot (parsers r) m'.
Proof. unfold register. simpl. apply slot_set_slot. Qed.

Lemma parsers_call r (c : Call) :
  parsers (call r c) = foldl table_register (parsers r) (registrations c).
Proof. destruct c; reflexivity. Qed.

Lemma middlewares_call r (c : Call) :
  middlewares (call r c) = middlewares r ++ used [c].
Proof. destruct c; simpl; rewrite ?app_nil_r; reflexivity. Qed.

Lemma parsers_configure cs r :
  parsers (configure cs r) = foldl table_register (parsers r) (cs ≫= registrations).
Proof.
  unfold configure. revert r. induction cs as [|c cs IH]; intros r; [reflexivity |].
  simpl. rewrite IH, parsers_call, foldl_app. reflexivity.
Qed.

Lemma used_cons (c : Call) cs : used (c :: cs) = used [c] ++ used cs.
Proof. unfold used. simpl. rewrite app_nil_r. reflexivity. Qed.

(** The global middleware list is the list of the middlewares given to
    [use], in the order of the calls. *)
Lemma middlewares_configure cs r :
  middlewares (configure cs r) = middlewares r ++ used cs.
Proof.
  unfold configure. revert r. induction cs as [|c cs IH]; intros r.
  - simpl. rewrite app_nil_r. reflexivity.
  - rewrite (used_cons c cs). cbn [foldl].
    rewrite IH, middlewares_call, app_assoc. reflexivity.
Qed.

(** A slot is the ordered alternation of what it was and of the routes
    registered under its method, oldest first. *)
Lemma slot_foldl_table_register es (t : ParserTable Mw) m route :
  slot (foldl table_register t es) m route =
  first_match (slot t m :: ((fun e => route_parser e.1 e.2)
                             <$> (snd <$> filter (fun e => e.1 = m) es))) route.
Proof.
  revert t. induction es as [|e es IH]; intros t.
  - simpl. destruct (slot t m route); reflexivity.
  - simpl foldl. rewrite IH. unfold table_register at 1. rewrite slot_set_slot.
    rewrite filter_cons. destruct (decide (e.1 = m)) as [->|Hne].
    + rewrite !fmap_cons. apply first_match_cons_alt.
    + reflexivity.
Qed.

Lemma slot_configure cs r m route :
  slot (parsers (configure cs r)) m route =
  first_match (slot (parsers r) m :: registered_parsers m cs) route.
Proof. rewrite parsers_configure. apply slot_foldl_table_register. Qed.

Lemma slot_configure_fresh cs m route :
  slot (parsers (configure cs constructor)) m route =
  first_match (registered_parsers m cs) route.
Proof. rewrite slot_configure. destruct m; reflexivity. Qed.

(** ** The allowed methods *)

Lemma elem_of_canonical_methods m : m ∈ canonical_methods.
Proof. unfold canonical_methods. destruct m; set_solver. Qed.

Lemma elem_of_allowed_on r route m :
  m ∈ allowed_on r route <-> is_Some (slot (parsers r) m route).
Proof.
  unfold allowed_on. rewrite list_elem_of_filter.
  split; [tauto |]. intros Hs. split; [exact Hs | apply elem_of_canonical_methods].
Qed.

Lemma allowed_on_sublist r route : sublist (allowed_on r route) canonical_methods.
Proof. unfold allowed_on. apply sublist_filter. Qed.

(** When [Route.parse] returns, the filter returns the methods whose slot
    parses the route. *)
Lemma allowed_returns r path_ route :
  Route_parse path_ = inr route -> allowed r path_ = inr (allowed_on r route).
Proof.
  intros E. unfold allowed, allowed_on.
  apply (filter_throwing_returns (fun m => is_Some (slot (parsers r) m route))).
  intros m. cbv zeta. rewrite E, parse_or_null_fst.
  destruct (slot (parsers r) m route) as [v|]; reflexivity.
Qed.

(** When [Route.parse] throws, the filter throws on its first element. *)
Lemma allowed_throws r path_ (e : Failure) :
  Route_parse path_ = inl e -> allowed r path_ = inl e.
Proof.
  intros E. unfold allowed. apply filter_throwing_throws. cbv zeta. rewrite E. reflexivity.
Qed.

(** ** The dispatcher *)

Lemma routes_unrecognized r ctx next :
  parseMethod (method ctx) = None -> routes r ctx next = next ctx.
Proof. intros E. unfold routes. rewrite E. reflexivity. Qed.

Lemma routes_OPTIONS r ctx next :
  method ctx = "OPTIONS" -> routes r ctx next = next ctx.
Proof. intros E. unfold routes. rewrite E. reflexivity. Qed.

Lemma routes_throws r ctx next m (e : Failure) :
  method ctx = method_name m ->
  Route_parse (path ctx) = inl e ->
  routes r ctx next = thrown e ctx.
Proof.
  intros Em E. unfold routes. rewrite Em, parseMethod_name. cbv zeta.
  rewrite E. reflexivity.
Qed.

Lemma routes_no_match r ctx next m route :
  method ctx = method_name m ->
  Route_parse (path ctx) = inr route ->
  slot (parsers r) m route = None ->
  routes r ctx next = next ctx.
Proof.
  intros Em Er E. unfold routes. rewrite Em, parseMethod_name. cbv zeta.
  rewrite Er, (parse_or_null_None _ _ E). reflexivity.
Qed.

Lemma routes_match r ctx next m route mw rest :
  method ctx = method_name m ->
  Route_parse (path ctx) = inr route ->
  slot (parsers r) m route = Some (mw, rest) ->
  routes r ctx next = compose (middlewares r ++ [mw]) ctx next.
Proof.
  intros Em Er E. unfold routes. rewrite Em, parseMethod_name. cbv zeta.
  rewrite Er, (parse_or_null_Some _ _ _ _ E). reflexivity.
Qed.

Lemma routes_no_registered_match cs ctx next m route :
  method ctx = method_name m ->
  Route_parse (path ctx) = inr route ->
  Forall (fun e => parser e.1 route = None) (registered m cs) ->
  routes (configure cs constructor) ctx next = next ctx.
Proof.
  intros Hm Er Hnone. apply (routes_no_match _ _ _ m route Hm Er).
  rewrite slot_configure_fresh. apply first_match_None.
  unfold registered_parsers. rewrite Forall_fmap.
  eapply Forall_impl; [exact Hnone |].
  intros [q g] Hq. simpl in *. apply route_parser_None, Hq.
Qed.

(** C9, amended: a freshly constructed router has the empty matcher, which
    fails on every route, in each of its six slots, so no route is parsed
    under any method; [routes()] hands to [next], as it is, every request
    whose method is not recognized or is OPTIONS, or whose path
    [Route.parse] accepts. *)
Theorem fresh_router_matches_nothing :
  (forall m, slot (parsers (constructor : Router Mw)) m = zero) /\
  (forall route, @zero Mw route = None) /\
  (forall m route,
      parse_or_null (slot (parsers (constructor : Router Mw)) m) route = None) /\
  (forall ctx next,
      method ctx ∉ recognized \/ method ctx = "OPTIONS" \/
      (exists route, Route_parse (path ctx) = inr route) ->
      routes constructor ctx next = next ctx).
Proof.
  split; [intros []; reflexivity |].
  split; [reflexivity |].
  split; [intros [] route; reflexivity |].
  intros ctx next [Hu | [Ho | [route Er]]].
  - apply routes_unrecognized, parseMethod_unrecognized, Hu.
  - apply routes_OPTIONS, Ho.
  - unfold routes. rewrite Er.
    destruct (parseMethod (method ctx)) as [[[]|]|]; reflexivity.
Qed.

(** C7, amended: [routes()] hands a request to [next] with the context as
    it was, running none of the router's middlewares and handlers, when the
    method string is not recognized, when it is OPTIONS, and when it is one
    of the six methods, [Route.parse] accepts the path and no pattern
    registered under the method parses the route. *)
Theorem routes_passes_through cs ctx next :
  method ctx ∉ recognized \/
  method ctx = "OPTIONS" \/
  (exists m route,
      method ctx = method_name m /\
      Route_parse (path ctx) = inr route /\
      Forall (fun e => parser e.1 route = None) (registered m cs)) ->
  routes (configure cs constructor) ctx next = next ctx.
Proof.
  intros [Hu | [Ho | (m & route & Hm & Er & Hnone)]].
  - apply routes_unrecognized, parseMethod_unrecognized, Hu.
  - apply routes_OPTIONS, Ho.
  - apply (routes_no_registered_match _ _ _ m route Hm Er Hnone).
Qed.

(** ** The allowed-methods resolver *)

(** C3, amended: on an OPTIONS request whose path [Route.parse] accepts,
    [allowedMethods()] assigns 200 to the status and the empty string to
    the body, sets the header [Allow] to the names, joined by ", ", of the
    methods whose slot parses the route, in the order DELETE, GET, HEAD,
    PATCH, POST, PUT, and returns without calling [next]. *)
Theorem allowedMethods_OPTIONS r ctx route :
  method ctx = "OPTIONS" ->
  Route_parse (path ctx) = inr route ->
  exists (l : list RouteMethod) (w : Response),
    sublist l [DELETE; GET; HEAD; PATCH; POST; PUT] /\
    (forall m, m ∈ l <-> is_Some (slot (parsers r) m route)) /\
    response_set_status (response ctx) 200 = inr w /\
    forall next,
      allowedMethods r ctx next =
        finished {| method := method ctx; path := path ctx; params := params ctx;
                    response :=
                      response_set (response_set_body w "") "Allow"
                                   (String.concat ", " (method_name <$> l)) |}.
Proof.
  intros Em Er.
  destruct (response_set_status_accepts (response ctx) 200) as [w Hw]; [lia |].
  exists (allowed_on r route), w.
  split; [apply allowed_on_sublist |].
  split; [intros m; apply elem_of_allowed_on |].
  split; [exact Hw |].
  intros next. unfold allowedMethods.
  rewrite (parseMethod_eq_OPTIONS _ Em), (allowed_returns _ _ _ Er),
    (set_status_returns _ _ _ Hw).
  reflexivity.
Qed.

(** C4, amended: [allowedMethods()] assigns 501 to the status and returns,
    without calling [next], when the method string is not recognized.  For
    a request with one of the six methods whose path [Route.parse] accepts,
    it calls [next] on the unchanged context when the slot of the method
    parses the route, and otherwise assigns 405 to the status, sets the
    header [Allow] to the value the OPTIONS response on that path carries,
    and returns without calling [next]. *)
Theorem allowedMethods_other_methods r ctx :
  (method ctx ∉ recognized ->
     exists w : Response,
       response_set_status (response ctx) 501 = inr w /\
       forall next,
         allowedMethods r ctx next =
           finished {| method := method ctx; path := path ctx; params := params ctx;
                       response := w |}) /\
  (forall m route, method ctx = method_name m ->
     Route_parse (path ctx) = inr route ->
     is_Some (slot (parsers r) m route) ->
     forall next, allowedMethods r ctx next = next ctx) /\
  (forall m route, method ctx = method_name m ->
     Route_parse (path ctx) = inr route ->
     slot (parsers r) m route = None ->
     exists (l : list RouteMethod) (w : Response),
       sublist l [DELETE; GET; HEAD; PATCH; POST; PUT] /\
       (forall m', m' ∈ l <-> is_Some (slot (parsers r) m' route)) /\
       response_set_status (response ctx) 405 = inr w /\
       (forall next,
          allowedMethods r ctx next =
            finished {| method := method ctx; path := path ctx; params := params ctx;
                        response :=
                          response_set w "Allow"
                                       (String.concat ", " (method_name <$> l)) |}) /\
       forall ctx' (w' : Response) next',
         method ctx' = "OPTIONS" -> path ctx' = path ctx ->
         response_set_status (response ctx') 200 = inr w' ->
         allowedMethods r ctx' next' =
           finished {| method := method ctx'; path := path ctx'; params := params ctx';
                       response :=
                         response_set (response_set_body w' "") "Allow"
                                      (String.concat ", " (method_name <$> l)) |}).
Proof.
  split; [| split].
  - intros Hu.
    destruct (response_set_status_accepts (response ctx) 501) as [w Hw]; [lia |].
    exists w. split; [exact Hw |].
    intros next. unfold allowedMethods.
    rewrite (parseMethod_unrecognized _ Hu), (set_status_returns _ _ _ Hw). reflexivity.
  - intros m route Em Er Hs next. unfold allowedMethods.
    rewrite (parseMethod_eq_name _ _ Em), (allowed_returns _ _ _ Er).
    rewrite bool_decide_eq_true_2 by (apply elem_of_allowed_on, Hs). reflexivity.
  - intros m route Em Er Hn.
    destruct (response_set_status_accepts (response ctx) 405) as [w Hw]; [lia |].
    exists (allowed_on r route), w.
    split; [apply allowed_on_sublist |].
    split; [intros m'; apply elem_of_allowed_on |].
    split; [exact Hw |].
    split.
    + intros next. unfold allowedMethods.
      rewrite (parseMethod_eq_name _ _ Em), (allowed_returns _ _ _ Er).
      rewrite bool_decide_eq_false_2.
      * rewrite (set_status_returns _ _ _ Hw). reflexivity.
      * rewrite elem_of_allowed_on, Hn. intros [? ?]; discriminate.
    + intros ctx' w' next' Eo Ep Hw'. unfold allowedMethods.
      rewrite <- Ep in Er.
      rewrite (parseMethod_eq_OPTIONS _ Eo), (allowed_returns _ _ _ Er),
        (set_status_returns _ _ _ Hw').
      reflexivity.
Qed.

(** ** Dispatch to registered routes *)

Lemma registered_parsers_lookup m cs (i : nat) p h :
  registered m cs !! i = Some (p, h) ->
  registered_parsers m cs !! i = Some (route_parser p h).
Proof.
  intros E. unfold registered_parsers. rewrite list_lookup_fmap, E. reflexivity.
Qed.

Lemma registered_parsers_lookup_inv m cs (k : nat) q :
  registered_parsers m cs !! k = Some q ->
  exists p h, registered m cs !! k = Some (p, h) /\ q = route_parser p h.
Proof.
  unfold registered_parsers. rewrite list_lookup_fmap.
  destruct (registered m cs !! k) as [[p h]|]; [| discriminate].
  intros [= <-]. eauto.
Qed.

(** The route selected for a path is the oldest registration of the
    method whose pattern parses it. *)
Lemma slot_configure_selects cs m route (i : nat) p h a rest :
  registered m cs !! i = Some (p, h) ->
  parser p route = Some (a, rest) ->
  (forall k q g, (k < i)%nat -> registered m cs !! k = Some (q, g) ->
                 parser q route = None) ->
  slot (parsers (configure cs constructor)) m route = Some (inject h a, rest).
Proof.
  intros Hi Hp Hbefore. rewrite slot_configure_fresh.
  apply (first_match_at _ _ i (route_parser p h)).
  - apply registered_parsers_lookup, Hi.
  - apply route_parser_Some, Hp.
  - intros k q Hk Hq.
    destruct (registered_parsers_lookup_inv _ _ _ _ Hq) as (p' & h' & Hk' & ->).
    apply route_parser_None. apply (Hbefore k p' h' Hk Hk').
Qed.

Lemma routes_runs_selected_route cs ctx next m (i : nat) p h route a rest :
  method ctx = method_name m ->
  Route_parse (path ctx) = inr route ->
  registered m cs !! i = Some (p, h) ->
  parser p route = Some (a, rest) ->
  (forall k q g, (k < i)%nat -> registered m cs !! k = Some (q, g) ->
                 parser q route = None) ->
  routes (configure cs constructor) ctx next =
    compose (used cs ++ [inject h a]) ctx next /\
  (Forall passes_on (used cs) ->
     routes (configure cs constructor) ctx next = h (set_params ctx a) next).
Proof.
  intros Em Er Hi Hp Hbefore.
  assert (Hr : routes (configure cs constructor) ctx next =
               compose (used cs ++ [inject h a]) ctx next).
  { replace (used cs) with (middlewares (configure cs constructor))
      by (rewrite middlewares_configure; reflexivity).
    apply (routes_match _ _ _ m route _ rest Em Er).
    apply (slot_configure_selects _ _ _ i p); assumption. }
  split; [exact Hr |].
  intros Hpass. rewrite Hr, (compose_passes_on _ _ _ _ Hpass). reflexivity.
Qed.

(** C2, amended: when [Route.parse] accepts the path of a request and the
    route is parsed by a pattern registered under the request's method, and
    by none registered earlier under it, [routes()] runs the chain made of
    the global middlewares, in the order of their [use] calls, followed by
    the function that writes the parsed parameters to [ctx.params] and then
    runs the registered handler; the chain is run on the request's context
    with the [next] that [routes()] received, each stage being given the
    rest of the chain as its [next].  The registered handler is therefore
    invoked, on a context whose [params] are the parsed parameters, when
    the global middlewares pass control on; a global middleware that does
    not call [next] keeps it from running. *)
Theorem routes_dispatches_registered_handler cs ctx next m (i : nat) p h route a rest :
  method ctx = method_name m ->
  Route_parse (path ctx) = inr route ->
  registered m cs !! i = Some (p, h) ->
  parser p route = Some (a, rest) ->
  (forall k q g, (k < i)%nat -> registered m cs !! k = Some (q, g) ->
                 parser q route = None) ->
  middlewares (configure cs constructor) = used cs /\
  routes (configure cs constructor) ctx next =
    compose (used cs ++
             [fun ctx' next' =>
                h {| method := method ctx'; path := path ctx'; params := a;
                     response := response ctx' |} next'])
            ctx next /\
  (forall (mw : Mw) (mws : list Mw) ctx' next',
      compose (mw :: mws) ctx' next' = mw ctx' (fun ctx'' => compose mws ctx'' next') /\
      compose (@nil Mw) ctx' next' = next' ctx') /\
  (Forall passes_on (used cs) ->
     routes (configure cs constructor) ctx next =
       h {| method := method ctx; path := path ctx; params := a;
            response := response ctx |} next).
Proof.
  intros Em Er Hi Hp Hbefore.
  split; [rewrite middlewares_configure; reflexivity |].
  destruct (routes_runs_selected_route cs ctx next m i p h route a rest
              Em Er Hi Hp Hbefore) as [Hr Hpass].
  split; [exact Hr |].
  split; [intros mw mws ctx' next'; split; reflexivity |].
  exact Hpass.
Qed.

(** C5: the routes of a method are tried oldest first and the first
    pattern that parses the path wins.  When a registered pattern parses
    the path, the slot gives what the alternation of the registrations up
    to that one gives, so no later registration is selected instead; and
    when no earlier pattern parses the path, the slot gives the handler
    of that registration with the parameters its pattern extracts.  This
    is so because [register] puts the new parser behind the slot's
    current value in an [alt]. *)
Theorem first_registered_wins cs m route (i : nat) p h a rest :
  registered m cs !! i = Some (p, h) ->
  parser p route = Some (a, rest) ->
  (forall m' q g r,
      slot (parsers (register m' q g r)) m' =
        Parser_alt (slot (parsers r) m') (route_parser q g)) /\
  slot (parsers (configure cs constructor)) m route =
    first_match (registered_parsers m cs) route /\
  slot (parsers (configure cs constructor)) m route =
    first_match (take (S i) (registered_parsers m cs)) route /\
  ((forall k q g, (k < i)%nat -> registered m cs !! k = Some (q, g) ->
                  parser q route = None) ->
   parse_or_null (slot (parsers (configure cs constructor)) m) route =
     Some (inject h a)).
Proof.
  intros Hi Hp.
  split; [| split; [| split]].
  - intros m' q g r. rewrite slot_register. rewrite decide_True by reflexivity.
    reflexivity.
  - apply slot_configure_fresh.
  - rewrite slot_configure_fresh.
    apply (first_match_take _ _ i (route_parser p h)).
    + apply registered_parsers_lookup, Hi.
    + rewrite (route_parser_Some _ _ _ _ _ Hp). eauto.
  - intros Hbefore. apply (parse_or_null_Some _ _ _ rest).
    apply (slot_configure_selects _ _ _ i p); assumption.
Qed.

(** ** [get], [redirect] and HEAD *)

Lemma slot_get p h r m :
  slot (parsers (get p h r)) m =
  if bool_decide (m ∈ [GET; HEAD])
  then Parser_alt (slot (parsers r) m) (route_parser p h)
  else slot (parsers r) m.
Proof. destruct m; reflexivity. Qed.

Lemma slot_redirect src dest f code r m :
  slot (parsers (redirect src dest f code r)) m =
  if bool_decide (m ∈ [DELETE; GET; PATCH; POST; PUT])
  then Parser_alt (slot (parsers r) m) (route_parser src (redirect_handler dest f (default 302 code)))
  else slot (parsers r) m.
Proof. destruct m; reflexivity. Qed.

Lemma registered_cons m (c : Call) cs :
  registered m (c :: cs) = registered m [c] ++ registered m cs.
Proof.
  unfold registered. rewrite (bind_cons _ c cs), filter_app, fmap_app.
  f_equal. rewrite (bind_cons _ c []). cbn [mbind list_bind]. rewrite app_nil_r.
  reflexivity.
Qed.

(** Only [get] registers under HEAD. *)
Lemma registered_HEAD cs : fst <$> registered HEAD cs = get_patterns cs.
Proof.
  induction cs as [|c cs IH]; [reflexivity |].
  rewrite registered_cons, fmap_app, IH.
  unfold get_patterns. rewrite bind_cons. f_equal.
  destruct c; reflexivity.
Qed.

(** C10: [redirect] puts its handler in the slots of DELETE, GET, PATCH,
    POST and PUT and leaves the slot of HEAD as it was, whereas [get]
    extends the slot of HEAD too.  Hence a HEAD request whose path is
    parsed by no pattern given to [get], whatever redirect sources parse
    it, is handed to [next] unchanged. *)
Theorem redirect_does_not_register_HEAD :
  (forall src dest f code r,
      slot (parsers (redirect src dest f code r)) HEAD = slot (parsers r) HEAD) /\
  (forall src dest f code r m, m <> HEAD ->
      slot (parsers (redirect src dest f code r)) m =
        Parser_alt (slot (parsers r) m)
                   (route_parser src (redirect_handler dest f (default 302 code)))) /\
  (forall p h r,
      slot (parsers (get p h r)) HEAD =
        Parser_alt (slot (parsers r) HEAD) (route_parser p h)) /\
  (forall cs ctx next route,
      method ctx = "HEAD" ->
      Route_parse (path ctx) = inr route ->
      Forall (fun q => parser q route = None) (get_patterns cs) ->
      routes (configure cs constructor) ctx next = next ctx).
Proof.
  split; [reflexivity |].
  split; [intros src dest f code r [] Hm; try reflexivity; congruence |].
  split; [reflexivity |].
  intros cs ctx next route Em Er Hnone.
  apply (routes_no_registered_match _ _ _ HEAD route Em Er).
  rewrite <- registered_HEAD, Forall_fmap in Hnone. exact Hnone.
Qed.

(** The calls other than [redirect] keep the slots of GET and HEAD equal. *)
Lemma call_keeps_GET_HEAD r (c : Call) :
  is_redirect c = false ->
  slot (parsers r) HEAD = slot (parsers r) GET ->
  slot (parsers (call r c)) HEAD = slot (parsers (call r c)) GET.
Proof.
  intros Hc E. destruct c; try discriminate; simpl in *; try exact E.
  rewrite E. reflexivity.
Qed.

Lemma configure_keeps_GET_HEAD cs r :
  Forall (fun c => is_redirect c = false) cs ->
  slot (parsers r) HEAD = slot (parsers r) GET ->
  slot (parsers (configure cs r)) HEAD = slot (parsers (configure cs r)) GET.
Proof.
  unfold configure. revert r. induction cs as [|c cs IH]; intros r Hcs E; [exact E |].
  inversion Hcs as [|? ? Hc Hcs']; subst. cbn [foldl].
  apply IH; [exact Hcs' |]. apply call_keeps_GET_HEAD; assumption.
Qed.

Lemma registered_parsers_cons m (c : Call) cs :
  registered_parsers m (c :: cs) = registered_parsers m [c] ++ registered_parsers m cs.
Proof. unfold registered_parsers. rewrite registered_cons, fmap_app. reflexivity. Qed.

(** A GET request and a HEAD request on the same path select the same
    route, unless the route selected for GET is one of [redirect]. *)
Lemma GET_HEAD_dichotomy cs route :
  first_match (registered_parsers HEAD cs) route =
    first_match (registered_parsers GET cs) route \/
  exists src dest f code a rest,
    CallRedirect src dest f code ∈ cs /\
    parser src route = Some (a, rest) /\
    first_match (registered_parsers GET cs) route =
      Some (inject (redirect_handler dest f (default 302 code)) a, rest).
Proof.
  induction cs as [|c cs IH]; [left; reflexivity |].
  rewrite (registered_parsers_cons HEAD), (registered_parsers_cons GET), !first_match_app.
  assert (Hlater :
    first_match (registered_parsers HEAD cs) route =
      first_match (registered_parsers GET cs) route \/
    exists src dest f code a rest,
      CallRedirect src dest f code ∈ c :: cs /\
      parser src route = Some (a, rest) /\
      first_match (registered_parsers GET cs) route =
        Some (inject (redirect_handler dest f (default 302 code)) a, rest)).
  { destruct IH as [E | (src & dest & f & code & a & rest & Hin & Hsrc & E)];
      [left; exact E | right].
    exists src, dest, f, code, a, rest.
    split; [apply list_elem_of_further, Hin | split; assumption]. }
  destruct c as [q g|q g|q g|q g|q g|src dest f code|mw];
    try exact Hlater.
  - (* get: the same parser in front of both slots *)
    change (registered_parsers HEAD [CallGet q g]) with [route_parser q g].
    change (registered_parsers GET [CallGet q g]) with [route_parser q g].
    simpl. destruct (route_parser q g route); [left; reflexivity | exact Hlater].
  - (* redirect: a parser in front of the slot of GET alone *)
    change (registered_parsers HEAD [CallRedirect src dest f code]) with
      (@nil (Parser Mw)).
    change (registered_parsers GET [CallRedirect src dest f code]) with
      [route_parser src (redirect_handler dest f (default 302 code))].
    simpl. destruct (parser src route) as [[a rest]|] eqn:Hsrc.
    + right. exists src, dest, f, code, a, rest.
      rewrite (route_parser_Some _ _ _ _ _ Hsrc).
      split; [apply list_elem_of_here | split; [exact Hsrc | reflexivity]].
    + rewrite (route_parser_None _ _ _ Hsrc). exact Hlater.
Qed.

(** C6, amended: [get] puts the parser of its route behind the current
    value of the slot of GET and of the slot of HEAD.  Hence a HEAD request
    selects the same route, with the same handler and the same parameters,
    as the GET request on the same path, except when the route selected
    for GET was registered by [redirect], which does not register under
    HEAD; on a router configured without [redirect] the two slots are
    equal. *)
Theorem get_registers_GET_and_HEAD cs route :
  (forall p h r,
      slot (parsers (get p h r)) GET =
        Parser_alt (slot (parsers r) GET) (route_parser p h) /\
      slot (parsers (get p h r)) HEAD =
        Parser_alt (slot (parsers r) HEAD) (route_parser p h)) /\
  (slot (parsers (configure cs constructor)) HEAD route =
     slot (parsers (configure cs constructor)) GET route \/
   exists src dest f code a rest,
     CallRedirect src dest f code ∈ cs /\
     parser src route = Some (a, rest) /\
     slot (parsers (configure cs constructor)) GET route =
       Some (inject (redirect_handler dest f (default 302 code)) a, rest)) /\
  (Forall (fun c => is_redirect c = false) cs ->
   slot (parsers (configure cs constructor)) HEAD =
     slot (parsers (configure cs constructor)) GET).
Proof.
  split; [intros p h r; split; reflexivity |].
  split.
  - rewrite !slot_configure_fresh. apply GET_HEAD_dichotomy.
  - intros Hcs. apply configure_keeps_GET_HEAD; [exact Hcs | reflexivity].
Qed.

(** ** Redirects *)

Lemma registered_app m cs1 cs2 :
  registered m (cs1 ++ cs2) = registered m cs1 ++ registered m cs2.
Proof.
  unfold registered. rewrite bind_app, filter_app, fmap_app. reflexivity.
Qed.

Lemma registered_redirect m src dest f code :
  m ∈ [DELETE; GET; PATCH; POST; PUT] ->
  registered m [CallRedirect src dest f code] = [(src, redirect_handler dest f (default 302 code))].
Proof.
  rewrite !elem_of_cons, elem_of_nil.
  intros [->|[->|[->|[->|[->|[]]]]]]; reflexivity.
Qed.

Lemma used_app cs1 cs2 : used (cs1 ++ cs2) = used cs1 ++ used cs2.
Proof. unfold used. apply bind_app. Qed.

(** C8, amended: [redirect(src, dest, f, code)] registers one handler
    under DELETE, GET, PATCH, POST and PUT.  A request of one of these
    methods whose path [Route.parse] accepts, whose route [src] parses with
    parameters [a] and no pattern registered earlier under the method
    parses, is dispatched to that handler behind the global middlewares.
    The handler, run with [ctx.params = a], calls [ctx.redirect] with
    [format(dest, f(a))] and then assigns [code] to the status; Koa's
    status setter takes a code from 100 to 999 and throws on another one.
    So when the global middlewares (if any) only pass control on and
    [code] is from 100 to 999, the outcome is the context after that
    redirect and that assignment.  [code] is 302 when the call omits it. *)
Theorem redirect_redirects cs cs1 cs2 src dest f code m ctx next route a rest :
  cs = cs1 ++ CallRedirect src dest f code :: cs2 ->
  m ∈ [DELETE; GET; PATCH; POST; PUT] ->
  method ctx = method_name m ->
  Route_parse (path ctx) = inr route ->
  Forall (fun e => parser e.1 route = None) (registered m cs1) ->
  parser src route = Some (a, rest) ->
  (forall m', m' ∈ [DELETE; GET; PATCH; POST; PUT] ->
     forall r, slot (parsers (redirect src dest f code r)) m' =
               Parser_alt (slot (parsers r) m')
                          (route_parser src (redirect_handler dest f (default 302 code)))) /\
  routes (configure cs constructor) ctx next =
    compose (used cs ++
             [fun ctx' next' =>
                redirect_handler dest f (default 302 code)
                  {| method := method ctx'; path := path ctx'; params := a;
                     response := response ctx' |} next'])
            ctx next /\
  (forall ctx' next' (target : string),
     format (formatter dest) (f a) = inr target ->
     redirect_handler dest f (default 302 code)
       {| method := method ctx'; path := path ctx'; params := a;
          response := response ctx' |} next' =
     match response_set_status (response_redirect (response ctx') target)
                               (default 302 code) with
     | inr w =>
         finished {| method := method ctx'; path := path ctx'; params := a;
                     response := w |}
     | inl e =>
         thrown e {| method := method ctx'; path := path ctx'; params := a;
                     response := response_redirect (response ctx') target |}
     end) /\
  (Forall passes_on (used cs) ->
   forall target : string,
     format (formatter dest) (f a) = inr target ->
     100 <= default 302 code <= 999 ->
     exists w : Response,
       response_set_status (response_redirect (response ctx) target)
                           (default 302 code) = inr w /\
       routes (configure cs constructor) ctx next =
         finished {| method := method ctx; path := path ctx; params := a;
                     response := w |}) /\
  (forall r, redirect src dest f None r = redirect src dest f (Some 302) r).
Proof.
  intros -> Hm Em Er Hbefore Hsrc.
  set (cs := cs1 ++ CallRedirect src dest f code :: cs2).
  assert (Hreg : registered m cs !! length (registered m cs1) =
                 Some (src, redirect_handler dest f (default 302 code))).
  { unfold cs. rewrite registered_app, registered_cons, (registered_redirect _ _ _ _ _ Hm).
    rewrite lookup_app_r by lia. rewrite Nat.sub_diag. reflexivity. }
  assert (Hearlier : forall k q g, (k < length (registered m cs1))%nat ->
                       registered m cs !! k = Some (q, g) ->
                       parser q route = None).
  { intros k q g Hk Hq. unfold cs in Hq.
    rewrite registered_app, lookup_app_l in Hq by exact Hk.
    rewrite Forall_lookup in Hbefore. exact (Hbefore k (q, g) Hq). }
  destruct (routes_runs_selected_route cs ctx next m _ _ _ route a rest
              Em Er Hreg Hsrc Hearlier) as (Hr & Hpass).
  assert (Hhandler : forall ctx' next' (target : string),
     format (formatter dest) (f a) = inr target ->
     redirect_handler dest f (default 302 code)
       {| method := method ctx'; path := path ctx'; params := a;
          response := response ctx' |} next' =
     match response_set_status (response_redirect (response ctx') target)
                               (default 302 code) with
     | inr w =>
         finished {| method := method ctx'; path := path ctx'; params := a;
                     response := w |}
     | inl e =>
         thrown e {| method := method ctx'; path := path ctx'; params := a;
                     response := response_redirect (response ctx') target |}
     end).
  { intros ctx' next' target Ht. unfold redirect_handler. cbv zeta. simpl params.
    rewrite Ht. unfold set_status, ctx_redirect. simpl.
    destruct (response_set_status _ _); reflexivity. }
  split.
  { intros m' Hm' r. rewrite slot_redirect, bool_decide_eq_true_2 by exact Hm'.
    reflexivity. }
  split; [exact Hr |].
  split; [exact Hhandler |].
  split; [| reflexivity].
  intros Hu target Ht Hcode.
  destruct (response_set_status_accepts (response_redirect (response ctx) target)
              (default 302 code) Hcode) as [w Hw].
  exists w. split; [exact Hw |].
  rewrite (Hpass Hu). change (set_params ctx a) with
    {| method := method ctx; path := path ctx; params := a; response := response ctx |}.
  rewrite (Hhandler ctx next target Ht), Hw. reflexivity.
Qed.

End Properties.

(** * Further properties of the router *)

Section Coverage.
Context `{Host}.

Local Abbreviation Ctx := (KoaContext Params Response).
Local Abbreviation Mw := (Middleware Params Response Outcome).

Implicit Types (this r : Router Mw) (ctx : Ctx)
  (next : Next Params Response Outcome) (m : RouteMethod) (cs : list Call)
  (p src dest : Match Params) (h : Mw) (route : Route).

(** ** What a slot matches *)

Lemma slot_configure_is_Some cs m route :
  is_Some (slot (parsers (configure cs constructor)) m route) <->
  Exists (fun e => is_Some (parser e.1 route)) (registered m cs).
Proof.
  rewrite slot_configure_fresh, first_match_is_Some.
  unfold registered_parsers. rewrite Exists_fmap.
  apply Exists_proper; [| reflexivity].
  intros [q g]. simpl. apply route_parser_is_Some.
Qed.

Lemma registered_elem_of m (c : Call) cs e :
  c ∈ cs -> e ∈ registered m [c] -> e ∈ registered m cs.
Proof.
  intros Hc He. induction cs as [|c' cs IH]; [inversion Hc |].
  rewrite registered_cons, elem_of_app.
  apply elem_of_cons in Hc as [->|Hc]; [left; exact He | right; exact (IH Hc)].
Qed.

(** Whatever is registered under HEAD is registered under GET too. *)
Lemma registered_HEAD_GET cs e : e ∈ registered HEAD cs -> e ∈ registered GET cs.
Proof.
  induction cs as [|c cs IH]; [intros He; inversion He |].
  rewrite (registered_cons HEAD), (registered_cons GET), !elem_of_app.
  intros [He|He]; [left | right; exact (IH He)].
  destruct c; try (inversion He; fail).
  exact He.
Qed.

Lemma HEAD_matches_iff cs route :
  is_Some (slot (parsers (configure cs constructor)) HEAD route) <->
  Exists (fun q => is_Some (parser q route)) (get_patterns cs).
Proof.
  rewrite slot_configure_is_Some, <- registered_HEAD, Exists_fmap. reflexivity.
Qed.

(** ** Dispatch depends on the slot of the method and on the global list *)

Lemma routes_ext r r' ctx next :
  middlewares r = middlewares r' ->
  (forall m route, slot (parsers r) m route = slot (parsers r') m route) ->
  routes r ctx next = routes r' ctx next.
Proof.
  intros Hmw Hslot. unfold routes.
  destruct (parseMethod (method ctx)) as [[m|]|]; try reflexivity.
  cbv zeta. destruct (Route_parse (path ctx)) as [e|route]; [reflexivity |].
  rewrite !parse_or_null_fst, Hslot, Hmw. reflexivity.
Qed.

Lemma allowed_ext r r' path_ :
  (forall m route, slot (parsers r) m route = slot (parsers r') m route) ->
  allowed r path_ = allowed r' path_.
Proof.
  intros Hslot. unfold allowed. apply filter_throwing_ext.
  intros m. cbv zeta. destruct (Route_parse path_) as [e|route]; [reflexivity |].
  rewrite !parse_or_null_fst, Hslot. reflexivity.
Qed.

Lemma allowedMethods_ext r r' ctx next :
  allowed r (path ctx) = allowed r' (path ctx) ->
  allowedMethods r ctx next = allowedMethods r' ctx next.
Proof.
  intros E. unfold allowedMethods. rewrite E. reflexivity.
Qed.

(** [register] under one method changes nothing for the requests of the
    other methods. *)
Lemma register_leaves_other_methods m p h r ctx next :
  method ctx <> method_name m ->
  routes (register m p h r) ctx next = routes r ctx next.
Proof.
  intros Hne. unfold routes.
  destruct (parseMethod (method ctx)) as [[m'|]|] eqn:E; try reflexivity.
  cbv zeta. rewrite slot_register.
  destruct (decide (m = m')) as [->|_]; [| reflexivity].
  exfalso. apply Hne. exact (parseMethod_inv _ _ E).
Qed.

(** X2: a call of [delete], [get], [patch], [post], [put] or [redirect]
    changes nothing for the requests of the methods it does not register
    under, and nothing for OPTIONS and unrecognized methods: [routes()]
    treats them as before the call. *)
Theorem call_leaves_other_methods (c : Call) r ctx next :
  used [c] = [] ->
  (forall m, method ctx = method_name m -> registered m [c] = []) ->
  routes (call r c) ctx next = routes r ctx next.
Proof.
  intros Huse Hreg.
  assert (Hne : forall m, registered m [c] <> [] -> method ctx <> method_name m).
  { intros m Hm Em. exact (Hm (Hreg m Em)). }
  destruct c as [q g|q g|q g|q g|q g|src dest f code|mw];
    [ | | | | | | discriminate Huse ]; simpl.
  - apply register_leaves_other_methods, Hne. discriminate.
  - unfold get. rewrite !register_leaves_other_methods; [reflexivity | |];
      apply Hne; discriminate.
  - apply register_leaves_other_methods, Hne. discriminate.
  - apply register_leaves_other_methods, Hne. discriminate.
  - apply register_leaves_other_methods, Hne. discriminate.
  - unfold redirect, all. simpl.
    rewrite !register_leaves_other_methods; [reflexivity | | | | |];
      apply Hne; discriminate.
Qed.

(** X3: a route that is selected for a path stays selected: whatever calls
    are made later, a request of that method on that path is dispatched to
    the same handler with the same parameters, behind the global
    middlewares registered before and after. *)
Theorem later_calls_keep_selected_route cs r m ctx route mw rest :
  method ctx = method_name m ->
  Route_parse (path ctx) = inr route ->
  slot (parsers r) m route = Some (mw, rest) ->
  slot (parsers (configure cs r)) m route = Some (mw, rest) /\
  forall next,
    routes (configure cs r) ctx next =
      compose (middlewares r ++ used cs ++ [mw]) ctx next.
Proof.
  intros Em Er E.
  assert (E' : slot (parsers (configure cs r)) m route = Some (mw, rest)).
  { rewrite slot_configure. simpl. rewrite E. reflexivity. }
  split; [exact E' |].
  intros next. rewrite (routes_match _ _ _ m route mw rest Em Er E').
  rewrite middlewares_configure, app_assoc. reflexivity.
Qed.

Lemma canonical_methods_NoDup : NoDup canonical_methods.
Proof. apply (bool_decide_unpack _). vm_compute. exact I. Qed.

(** X4: on a configured router, for a path [Route.parse] accepts, the
    methods computed for the [Allow] header are exactly those under which
    some registered pattern parses the route, and none of them is listed
    twice. *)
Theorem allowed_iff_registered_pattern cs path_ route :
  Route_parse path_ = inr route ->
  exists l : list RouteMethod,
    allowed (configure cs constructor) path_ = inr l /\
    (forall m, m ∈ l <->
               Exists (fun e => is_Some (parser e.1 route)) (registered m cs)) /\
    NoDup l.
Proof.
  intros Er. exists (allowed_on (configure cs constructor) route).
  split; [apply allowed_returns, Er |]. split.
  - intros m. rewrite elem_of_allowed_on. apply slot_configure_is_Some.
  - unfold allowed_on. apply NoDup_filter, canonical_methods_NoDup.
Qed.

(** X5: for a path [Route.parse] accepts, HEAD is among the allowed
    methods exactly when a pattern given to [get] parses the route, and
    then GET is among them too: the [Allow] header never lists HEAD without
    GET. *)
Theorem HEAD_allowed_only_with_GET cs path_ route :
  Route_parse path_ = inr route ->
  exists l : list RouteMethod,
    allowed (configure cs constructor) path_ = inr l /\
    (HEAD ∈ l <-> Exists (fun q => is_Some (parser q route)) (get_patterns cs)) /\
    (HEAD ∈ l -> GET ∈ l).
Proof.
  intros Er. exists (allowed_on (configure cs constructor) route).
  split; [apply allowed_returns, Er |]. split.
  - rewrite elem_of_allowed_on. apply HEAD_matches_iff.
  - rewrite !elem_of_allowed_on, !slot_configure_is_Some, !Exists_exists.
    intros (e & He & Hp). exists e. split; [apply registered_HEAD_GET, He | exact Hp].
Qed.

(** X6: every path, accepted by [Route.parse], whose route a redirect
    source parses allows DELETE, GET, PATCH, POST and PUT; when no pattern
    given to [get] parses the route these five are the whole list, and the
    [Allow] header then reads "DELETE, GET, PATCH, POST, PUT". *)
Theorem redirect_source_allows_five cs src dest f code path_ route :
  CallRedirect src dest f code ∈ cs ->
  Route_parse path_ = inr route ->
  is_Some (parser src route) ->
  exists l : list RouteMethod,
    allowed (configure cs constructor) path_ = inr l /\
    (forall m, m ∈ [DELETE; GET; PATCH; POST; PUT] -> m ∈ l) /\
    (Forall (fun q => parser q route = None) (get_patterns cs) ->
     l = [DELETE; GET; PATCH; POST; PUT] /\
     allow_value l = "DELETE, GET, PATCH, POST, PUT").
Proof.
  intros Hin Er Hsrc.
  exists (allowed_on (configure cs constructor) route).
  split; [apply allowed_returns, Er |].
  assert (Hfive : forall m, m ∈ [DELETE; GET; PATCH; POST; PUT] ->
                            m ∈ allowed_on (configure cs constructor) route).
  { intros m Hm. rewrite elem_of_allowed_on, slot_configure_is_Some, Exists_exists.
    exists (src, redirect_handler dest f (default 302 code)).
    split; [| exact Hsrc].
    apply (registered_elem_of _ _ _ _ Hin).
    rewrite (registered_redirect _ _ _ _ _ Hm). apply list_elem_of_here. }
  split; [exact Hfive |].
  intros Hget.
  assert (HHEAD : HEAD ∉ allowed_on (configure cs constructor) route).
  { rewrite elem_of_allowed_on, HEAD_matches_iff, Exists_exists.
    intros (q & Hq & [v Hv]). rewrite Forall_forall in Hget.
    rewrite (Hget q Hq) in Hv. discriminate. }
  assert (E : allowed_on (configure cs constructor) route
              = [DELETE; GET; PATCH; POST; PUT]).
  { assert (HD := Hfive DELETE ltac:(set_solver)).
    assert (HG := Hfive GET ltac:(set_solver)).
    assert (HPA := Hfive PATCH ltac:(set_solver)).
    assert (HPO := Hfive POST ltac:(set_solver)).
    assert (HPU := Hfive PUT ltac:(set_solver)).
    unfold allowed_on, canonical_methods in *.
    apply list_elem_of_filter in HD as [HD _], HG as [HG _], HPA as [HPA _],
      HPO as [HPO _], HPU as [HPU _].
    rewrite list_elem_of_filter in HHEAD.
    rewrite (filter_cons_True _ DELETE) by exact HD.
    rewrite (filter_cons_True _ GET) by exact HG.
    rewrite (filter_cons_False _ HEAD)
      by (intros HP; apply HHEAD; split; [exact HP | set_solver]).
    rewrite (filter_cons_True _ PATCH) by exact HPA.
    rewrite (filter_cons_True _ POST) by exact HPO.
    rewrite (filter_cons_True _ PUT) by exact HPU.
    reflexivity. }
  split; [exact E |].
  rewrite E. reflexivity.
Qed.

(** X7: on a path that [Route.parse] accepts and no slot parses,
    [allowedMethods()] does not pass the request on: for a request with one
    of the six methods it assigns 405 to the status and sets an empty
    [Allow] header, and for OPTIONS it assigns 200, the empty body and an
    empty [Allow] header; [next] is not called. *)
Theorem allowedMethods_on_unrouted_path r ctx route :
  Route_parse (path ctx) = inr route ->
  (forall m, slot (parsers r) m route = None) ->
  allowed r (path ctx) = inr [] /\
  (method ctx = "OPTIONS" ->
   exists w : Response,
     response_set_status (response ctx) 200 = inr w /\
     forall next,
       allowedMethods r ctx next =
         finished {| method := method ctx; path := path ctx; params := params ctx;
                     response := response_set (response_set_body w "") "Allow" "" |}) /\
  (forall m, method ctx = method_name m ->
   exists w : Response,
     response_set_status (response ctx) 405 = inr w /\
     forall next,
       allowedMethods r ctx next =
         finished {| method := method ctx; path := path ctx; params := params ctx;
                     response := response_set w "Allow" "" |}).
Proof.
  intros Er Hnone.
  assert (E0 : allowed_on r route = []).
  { apply elem_of_nil_inv. intros m. rewrite elem_of_allowed_on, Hnone.
    intros [? ?]; discriminate. }
  assert (E : allowed r (path ctx) = inr []).
  { rewrite (allowed_returns _ _ _ Er), E0. reflexivity. }
  split; [exact E |]. split.
  - intros Eo.
    destruct (response_set_status_accepts (response ctx) 200) as [w Hw]; [lia |].
    exists w. split; [exact Hw |]. intros next. unfold allowedMethods.
    rewrite (parseMethod_eq_OPTIONS _ Eo), E, (set_status_returns _ _ _ Hw). reflexivity.
  - intros m Em.
    destruct (response_set_status_accepts (response ctx) 405) as [w Hw]; [lia |].
    exists w. split; [exact Hw |]. intros next. unfold allowedMethods.
    rewrite (parseMethod_eq_name _ _ Em), E, (set_status_returns _ _ _ Hw). reflexivity.
Qed.

(** X8: with [routes()] and [allowedMethods()] mounted one after the
    other, a request that [routes()] does not dispatch never reaches what is
    mounted behind them.  An unrecognized method is answered with the
    status 501; when [Route.parse] accepts the path, OPTIONS is answered
    with the status 200, the empty body and the [Allow] header, and a
    method none of whose routes parses the route with the status 405 and
    the [Allow] header; when [Route.parse] throws on the path of a request
    with a recognized method the error is thrown on. *)
Theorem mounted_answers_undispatched_requests r ctx :
  (method ctx ∉ recognized ->
   exists w : Response,
     response_set_status (response ctx) 501 = inr w /\
     forall next,
       mounted r ctx next =
         finished {| method := method ctx; path := path ctx; params := params ctx;
                     response := w |}) /\
  (forall route, method ctx = "OPTIONS" ->
   Route_parse (path ctx) = inr route ->
   exists w : Response,
     response_set_status (response ctx) 200 = inr w /\
     forall next,
       mounted r ctx next =
         finished {| method := method ctx; path := path ctx; params := params ctx;
                     response :=
                       response_set (response_set_body w "") "Allow"
                                    (allow_value (allowed_on r route)) |}) /\
  (forall m route, method ctx = method_name m ->
   Route_parse (path ctx) = inr route ->
   slot (parsers r) m route = None ->
   exists w : Response,
     response_set_status (response ctx) 405 = inr w /\
     forall next,
       mounted r ctx next =
         finished {| method := method ctx; path := path ctx; params := params ctx;
                     response :=
                       response_set w "Allow" (allow_value (allowed_on r route)) |}) /\
  (forall (e : Failure), method ctx ∈ recognized ->
   Route_parse (path ctx) = inl e ->
   forall next, mounted r ctx next = thrown e ctx).
Proof.
  split; [| split; [| split]].
  - intros Hu.
    destruct (response_set_status_accepts (response ctx) 501) as [w Hw]; [lia |].
    exists w. split; [exact Hw |]. intros next. unfold mounted. simpl.
    rewrite (routes_unrecognized _ _ _ (parseMethod_unrecognized _ Hu)).
    unfold allowedMethods.
    rewrite (parseMethod_unrecognized _ Hu), (set_status_returns _ _ _ Hw). reflexivity.
  - intros route Eo Er.
    destruct (response_set_status_accepts (response ctx) 200) as [w Hw]; [lia |].
    exists w. split; [exact Hw |]. intros next. unfold mounted. simpl.
    rewrite (routes_OPTIONS _ _ _ Eo). unfold allowedMethods.
    rewrite (parseMethod_eq_OPTIONS _ Eo), (allowed_returns _ _ _ Er),
      (set_status_returns _ _ _ Hw).
    reflexivity.
  - intros m route Em Er Hnone.
    destruct (response_set_status_accepts (response ctx) 405) as [w Hw]; [lia |].
    exists w. split; [exact Hw |]. intros next. unfold mounted. simpl.
    rewrite (routes_no_match _ _ _ m route Em Er Hnone). unfold allowedMethods.
    rewrite (parseMethod_eq_name _ _ Em), (allowed_returns _ _ _ Er).
    rewrite bool_decide_eq_false_2.
    + rewrite (set_status_returns _ _ _ Hw). reflexivity.
    + rewrite elem_of_allowed_on, Hnone. intros [? ?]; discriminate.
  - intros e Hrec E next. unfold mounted. simpl.
    destruct (parseMethod_recognized _ Hrec) as [[m|] HM].
    + pose proof (parseMethod_inv _ _ HM) as Em. simpl in Em.
      apply (routes_throws _ _ _ m e Em E).
    + pose proof (parseMethod_inv _ _ HM) as Eo. simpl in Eo.
      rewrite (routes_OPTIONS _ _ _ Eo). unfold allowedMethods.
      rewrite HM, (allowed_throws _ _ _ E). reflexivity.
Qed.

(** X9: with the two middlewares mounted one after the other, a dispatched
    request runs the route's chain with [allowedMethods()] as its
    continuation, and [allowedMethods()] hands a context whose method and
    path are those of the request on to what is mounted behind; so when the
    global middlewares and the handler only pass control on, the request
    arrives there with its parameters set and nothing else changed. *)
Theorem mounted_passes_dispatched_request_on r ctx next m route mw rest :
  method ctx = method_name m ->
  Route_parse (path ctx) = inr route ->
  slot (parsers r) m route = Some (mw, rest) ->
  mounted r ctx next =
    compose (middlewares r ++ [mw]) ctx (fun ctx' => allowedMethods r ctx' next) /\
  (forall ctx', method ctx' = method ctx -> path ctx' = path ctx ->
                allowedMethods r ctx' next = next ctx') /\
  (forall h a, mw = inject h a -> passes_on h -> Forall passes_on (middlewares r) ->
               mounted r ctx next =
                 next {| method := method ctx; path := path ctx; params := a;
                         response := response ctx |}).
Proof.
  intros Em Er E.
  assert (Hchain : mounted r ctx next =
            compose (middlewares r ++ [mw]) ctx (fun ctx' => allowedMethods r ctx' next)).
  { unfold mounted. simpl. apply (routes_match _ _ _ m route mw rest Em Er E). }
  assert (Hon : forall ctx', method ctx' = method ctx -> path ctx' = path ctx ->
                             allowedMethods r ctx' next = next ctx').
  { intros ctx' Em' Ep'. unfold allowedMethods.
    rewrite Em', (parseMethod_eq_name _ _ Em), Ep', (allowed_returns _ _ _ Er).
    rewrite bool_decide_eq_true_2; [reflexivity |].
    rewrite elem_of_allowed_on, E. eauto. }
  split; [exact Hchain |]. split; [exact Hon |].
  intros h a -> Hh Hmws.
  rewrite Hchain, (compose_passes_on _ _ _ _ Hmws).
  unfold inject. rewrite Hh. apply (Hon (set_params ctx a)); reflexivity.
Qed.

(** X10: only the order among the [use] calls and the order among the
    routes of one method matter.  Two sequences of calls that give the same
    global middlewares in the same order and, under every method, the same
    routes in the same order, give routers whose [routes()] and
    [allowedMethods()] behave alike; in particular [use] may be called
    after the routes it is to run before. *)
Theorem configuration_order cs cs' ctx next :
  used cs = used cs' ->
  (forall m, registered m cs = registered m cs') ->
  routes (configure cs constructor) ctx next =
    routes (configure cs' constructor) ctx next /\
  allowedMethods (configure cs constructor) ctx next =
    allowedMethods (configure cs' constructor) ctx next.
Proof.
  intros Hused Hreg.
  assert (Hslot : forall m route,
            slot (parsers (configure cs constructor)) m route =
            slot (parsers (configure cs' constructor)) m route).
  { intros m route. rewrite !slot_configure_fresh. unfold registered_parsers.
    rewrite Hreg. reflexivity. }
  split.
  - apply routes_ext; [| exact Hslot].
    rewrite !middlewares_configure, Hused. reflexivity.
  - apply allowedMethods_ext, allowed_ext, Hslot.
Qed.

(** X11: a global middleware that answers without calling [next] answers
    every dispatched request, provided the global middlewares registered
    before it pass control on: the route's handler and the global
    middlewares registered after it do not run. *)
Theorem global_middleware_can_answer cs pre guard post g ctx next m route :
  used cs = pre ++ guard :: post ->
  Forall passes_on pre ->
  answers guard g ->
  method ctx = method_name m ->
  Route_parse (path ctx) = inr route ->
  Exists (fun e => is_Some (parser e.1 route)) (registered m cs) ->
  routes (configure cs constructor) ctx next = finished (g ctx).
Proof.
  intros Hused Hpre Hguard Em Er Hmatch.
  apply slot_configure_is_Some in Hmatch as [[mw rest] E].
  rewrite (routes_match _ _ _ m route mw rest Em Er E).
  rewrite middlewares_configure. simpl. rewrite Hused, <- app_assoc.
  rewrite (compose_skip_passes_on _ _ _ _ Hpre). simpl. apply Hguard.
Qed.

(** X12: a route registered behind routes that already parse every route
    its pattern parses is never selected: registering it changes neither
    what [routes()] does nor the allowed methods.  And registering a
    pattern a second time under the same method, with whatever handler,
    never changes what [routes()] does. *)
Theorem shadowed_route_is_never_selected m p h r :
  ((forall route, is_Some (parser p route) -> is_Some (slot (parsers r) m route)) ->
   (forall ctx next, routes (register m p h r) ctx next = routes r ctx next) /\
   (forall path_, allowed (register m p h r) path_ = allowed r path_)) /\
  (forall g ctx next,
      routes (register m p g (register m p h r)) ctx next =
        routes (register m p h r) ctx next).
Proof.
  assert (Hshadow : forall r' g,
            (forall route, is_Some (parser p route) ->
                           is_Some (slot (parsers r') m route)) ->
            forall m' route,
              slot (parsers (register m p g r')) m' route = slot (parsers r') m' route).
  { intros r' g Hcover m' route. rewrite slot_register.
    destruct (decide (m = m')) as [<-|_]; [| reflexivity].
    unfold Parser_alt. destruct (slot (parsers r') m route) eqn:E; [reflexivity |].
    apply route_parser_None.
    destruct (parser p route) eqn:Ep; [| reflexivity].
    destruct (Hcover route) as [v Hv]; [eauto |]. rewrite E in Hv. discriminate. }
  split.
  - intros Hcover. split.
    + intros ctx next. apply routes_ext; [reflexivity |]. apply Hshadow, Hcover.
    + intros path_. apply allowed_ext, Hshadow, Hcover.
  - intros g ctx next. apply routes_ext; [reflexivity |].
    apply Hshadow.
    intros route Hp. rewrite slot_register, decide_True by reflexivity.
    unfold Parser_alt. destruct (slot (parsers r) m route); [eauto |].
    apply route_parser_is_Some, Hp.
Qed.

End Coverage.

(** * The router on the requests of the test suite *)

(** The responses are given by the calls made on Koa's response, oldest
    first: what Koa makes of each call is Koa's own. *)

Example test_get_root :
  routes (configure get_calls constructor) (request "GET" "/") downstream =
  Fulfilled {| method := "GET"; path := "/"; params := ∅;
               response := [SetBody "Hello, world!"] |}.
Proof. vm_compute. reflexivity. Qed.

Example test_post_root_not_found :
  routes (configure get_calls constructor) (request "POST" "/") downstream =
  Fulfilled (request "POST" "/").
Proof. vm_compute. reflexivity. Qed.

Example test_get_user :
  routes (configure get_calls constructor) (request "GET" "/users/foo") downstream =
  Fulfilled {| method := "GET"; path := "/users/foo"; params := {[ "id" := "foo" ]};
               response := [SetBody "Hello, foo!"] |}.
Proof. vm_compute. reflexivity. Qed.

Example test_options_allow :
  mounted (configure allowedMethods_calls constructor)
          (request "OPTIONS" "/") downstream =
  Fulfilled {| method := "OPTIONS"; path := "/"; params := ∅;
               response := [SetStatus 200; SetBody ""; SetHeader "Allow" "GET, HEAD, POST"] |}.
Proof. vm_compute. reflexivity. Qed.

Example test_put_not_allowed :
  mounted (configure allowedMethods_calls constructor)
          (request "PUT" "/") downstream =
  Fulfilled {| method := "PUT"; path := "/"; params := ∅;
               response := [SetStatus 405; SetHeader "Allow" "GET, HEAD, POST"] |}.
Proof. vm_compute. reflexivity. Qed.

Example test_trace_not_implemented :
  mounted (configure allowedMethods_calls constructor)
          (request "TRACE" "/") downstream =
  Fulfilled {| method := "TRACE"; path := "/"; params := ∅;
               response := [SetStatus 501] |}.
Proof. vm_compute. reflexivity. Qed.

Example test_use_without_authorization :
  routes (configure (use_calls auth_missing) constructor)
         (request "GET" "/") downstream =
  Fulfilled {| method := "GET"; path := "/"; params := ∅;
               response := [SetStatus 401] |}.
Proof. vm_compute. reflexivity. Qed.

Example test_use_with_authorization :
  routes (configure (use_calls auth_present) constructor)
         (request "GET" "/") downstream =
  Fulfilled {| method := "GET"; path := "/"; params := ∅;
               response := [SetBody "Hello, world!"] |}.
Proof. vm_compute. reflexivity. Qed.

Example test_redirect_without_base_path :
  routes (redirect oldUser newUser rename None constructor)
         (request "GET" "/john") downstream =
  Fulfilled {| method := "GET"; path := "/john"; params := {[ "userID" := "john" ]};
               response := [Redirect "/users/john"; SetStatus 302] |}.
Proof. vm_compute. reflexivity. Qed.

(** A path with a malformed escape: [Route.parse] throws on it, and on an
    escape that is not UTF-8, and decodes a well-formed one. *)
Example test_parse_malformed_escape :
  Route_parse "/%" = inl URIError /\
  Route_parse "/%E0%A4%A" = inl URIError /\
  Route_parse "/%FF" = inl URIError /\
  Route_parse "/a%2Fb/c%20d" =
    inr {| parts := ["a/b"; "c d"];
           query := [] |}.
Proof. vm_compute. repeat split; reflexivity. Qed.

(** * The claims on concrete requests *)

(** C1: the router built as in the test "w/ base path", with
    [new Router({ basePath: '/admin/' })], answers [GET /john] by calling
    [ctx.redirect] with [/users/john]: the target is the formatted
    destination path alone and not [/admin/users/john].  The constructor
    reads no option and no field of the router holds a base path, so this
    is so whatever options are passed. *)
Theorem redirect_without_base_path_prefix :
  routes redirect_router (request "GET" "/john") downstream =
    Fulfilled {| method := "GET"; path := "/john"; params := {[ "userID" := "john" ]};
                 response := [Redirect "/users/john"; SetStatus 302] |} /\
  routes redirect_router (request "GET" "/john") downstream <>
    Fulfilled {| method := "GET"; path := "/john"; params := {[ "userID" := "john" ]};
                 response := [Redirect "/admin/users/john"; SetStatus 302] |} /\
  (forall options, new_Router options = constructor) /\
  (forall options,
      routes (redirect oldUser newUser rename None (new_Router options))
             (request "GET" "/john") downstream =
        Fulfilled {| method := "GET"; path := "/john"; params := {[ "userID" := "john" ]};
                     response := [Redirect "/users/john"; SetStatus 302] |}).
Proof.
  split; [vm_compute; reflexivity |].
  split; [vm_compute; discriminate |].
  split; [reflexivity |].
  intros options. vm_compute. reflexivity.
Qed.

Lemma routes_dispatches_registered_handler_witness :
  routes (configure get_calls constructor) (request "GET" "/users/foo") downstream
    = hello {| method := "GET"; path := "/users/foo"; params := {[ "id" := "foo" ]};
               response := [] |} downstream.
Proof.
  assert (Hroute : parser user {| parts := ["users"; "foo"]; query := [] |}
                   = Some ({[ "id" := "foo" ]}, Route_empty))
    by (vm_compute; reflexivity).
  assert (Hearlier : forall k q g, (k < 1)%nat ->
            registered GET get_calls !! k = Some (q, g) ->
            parser q {| parts := ["users"; "foo"]; query := [] |} = None).
  { intros k q g Hk Hq. destruct k as [|k]; [| lia].
    change (Some (root, respond "Hello, world!") = Some (q, g)) in Hq.
    injection Hq as <- <-. vm_compute. reflexivity. }
  apply (routes_dispatches_registered_handler (H := host)
           get_calls (request "GET" "/users/foo") downstream
           GET 1 user hello {| parts := ["users"; "foo"]; query := [] |}
           {[ "id" := "foo" ]} Route_empty
           eq_refl eq_refl eq_refl Hroute Hearlier).
  constructor.
Defined.

(** C2 as stated fails on the router of the test of [use].  The route
    [(GET, root, handler)] is registered, [Route.parse] accepts the path
    [/] and the slot of GET parses its route by the pattern [root]; yet on
    a request without the [Authorization] header the global middleware
    assigns 401 to the status and returns without calling [next]: the
    outcome is the same whatever the handler and the [next] are, and is not
    what the handler gives. *)
Lemma answering_middleware_keeps_handler_from_running :
  registered GET (use_calls auth_missing) = [(root, respond "Hello, world!")] /\
  Route_parse "/" = inr Route_empty /\
  parser root Route_empty = Some (∅, Route_empty) /\
  is_Some (parse_or_null
             (slot (parsers (configure (use_calls auth_missing) constructor)) GET)
             Route_empty) /\
  (forall (h : Mw) (next : Next Obj Writes Settled),
      routes (configure [CallUse auth_missing; CallGet root h] constructor)
             (request "GET" "/") next =
        Fulfilled {| method := "GET"; path := "/"; params := ∅;
                     response := [SetStatus 401] |}) /\
  routes (configure (use_calls auth_missing) constructor) (request "GET" "/") downstream
    <> respond "Hello, world!"
         {| method := "GET"; path := "/"; params := ∅; response := [] |} downstream.
Proof.
  split; [reflexivity |].
  split; [vm_compute; reflexivity |].
  split; [vm_compute; reflexivity |].
  split; [vm_compute; eexists; reflexivity |].
  split; [intros h next; reflexivity |].
  vm_compute. discriminate.
Qed.

Lemma allowedMethods_OPTIONS_witness :
  exists (l : list RouteMethod) (w : Writes),
    sublist l [DELETE; GET; HEAD; PATCH; POST; PUT] /\
    assign_status [] 200 = inr w /\
    allowedMethods (configure allowedMethods_calls constructor)
                   (request "OPTIONS" "/") downstream =
      Fulfilled {| method := "OPTIONS"; path := "/"; params := ∅;
                   response :=
                     (w ++ [SetBody ""])
                       ++ [SetHeader "Allow" (String.concat ", " (method_name <$> l))] |}.
Proof.
  destruct (allowedMethods_OPTIONS (H := host)
              (configure allowedMethods_calls constructor)
              (request "OPTIONS" "/") Route_empty eq_refl eq_refl)
    as (l & w & Hsub & _ & Hw & Hrun).
  exists l, w.
  split; [exact Hsub |].
  split; [exact Hw |].
  exact (Hrun downstream).
Defined.

(** C3 as stated fails on an OPTIONS request whose path holds a malformed
    escape: [Route.parse] throws while the allowed methods are computed, so
    [allowedMethods()] throws the [URIError] before anything is asked of
    the response: no status 200, no body and no [Allow] header. *)
Lemma OPTIONS_on_malformed_path_throws :
  Route_parse "/%" = inl URIError /\
  allowedMethods (configure allowedMethods_calls constructor)
                 (request "OPTIONS" "/%") downstream =
    Rejected URIError {| method := "OPTIONS"; path := "/%"; params := ∅;
                         response := [] |} /\
  (forall (r : Router Mw) (next : Next Obj Writes Settled),
      allowedMethods r (request "OPTIONS" "/%") next =
        Rejected URIError (request "OPTIONS" "/%")).
Proof.
  split; [vm_compute; reflexivity |].
  split; [vm_compute; reflexivity |].
  intros r next. reflexivity.
Qed.

Lemma trace_unrecognized : "TRACE" ∉ recognized.
Proof.
  unfold recognized. rewrite !not_elem_of_cons.
  repeat split; try discriminate. apply not_elem_of_nil.
Qed.

Lemma allowedMethods_other_methods_witness :
  (exists w : Writes,
     assign_status [] 501 = inr w /\
     allowedMethods (configure allowedMethods_calls constructor)
                    (request "TRACE" "/") downstream
       = Fulfilled {| method := "TRACE"; path := "/"; params := ∅; response := w |}) /\
  allowedMethods (configure allowedMethods_calls constructor)
                 (request "GET" "/") downstream
    = Fulfilled (request "GET" "/") /\
  exists (l : list RouteMethod) (w : Writes),
    assign_status [] 405 = inr w /\
    allowedMethods (configure allowedMethods_calls constructor)
                   (request "PUT" "/") downstream
      = Fulfilled {| method := "PUT"; path := "/"; params := ∅;
                     response :=
                       w ++ [SetHeader "Allow" (String.concat ", " (method_name <$> l))] |}.
Proof.
  split; [| split].
  - destruct (proj1 (allowedMethods_other_methods (H := host)
                       (configure allowedMethods_calls constructor)
                       (request "TRACE" "/")) trace_unrecognized)
      as (w & Hw & Hrun).
    exists w. split; [exact Hw | exact (Hrun downstream)].
  - apply (proj1 (proj2 (allowedMethods_other_methods (H := host)
                    (configure allowedMethods_calls constructor)
                    (request "GET" "/"))) GET Route_empty eq_refl eq_refl).
    vm_compute. eexists. reflexivity.
  - destruct (proj2 (proj2 (allowedMethods_other_methods (H := host)
                    (configure allowedMethods_calls constructor)
                    (request "PUT" "/"))) PUT Route_empty eq_refl eq_refl)
      as (l & w & _ & _ & Hw & Hrun & _).
    + vm_compute. reflexivity.
    + exists l, w. split; [exact Hw | exact (Hrun downstream)].
Defined.

(** C4 as stated fails on a PUT request whose path holds a malformed
    escape: PUT is recognized and is not OPTIONS, no route of PUT exists,
    and yet no status 405 is assigned and no [Allow] header is set:
    [Route.parse] throws while the allowed methods are computed and
    [allowedMethods()] throws the [URIError]. *)
Lemma not_allowed_method_on_malformed_path_throws :
  "PUT" ∈ recognized /\
  registered PUT allowedMethods_calls = [] /\
  Route_parse "/%" = inl URIError /\
  allowedMethods (configure allowedMethods_calls constructor)
                 (request "PUT" "/%") downstream =
    Rejected URIError {| method := "PUT"; path := "/%"; params := ∅; response := [] |} /\
  (forall (r : Router Mw) (next : Next Obj Writes Settled),
      allowedMethods r (request "PUT" "/%") next =
        Rejected URIError (request "PUT" "/%")).
Proof.
  split; [unfold recognized; set_solver |].
  split; [reflexivity |].
  split; [vm_compute; reflexivity |].
  split; [vm_compute; reflexivity |].
  intros r next. reflexivity.
Qed.

Lemma first_registered_wins_witness :
  parse_or_null (slot (parsers (configure twice_calls constructor)) GET)
                {| parts := ["users"; "foo"]; query := [] |}
    = Some (inject hello {[ "id" := "foo" ]}).
Proof.
  assert (Hroute : parser user {| parts := ["users"; "foo"]; query := [] |}
                   = Some ({[ "id" := "foo" ]}, Route_empty))
    by (vm_compute; reflexivity).
  apply (proj2 (proj2 (proj2 (first_registered_wins (H := host)
                                twice_calls GET {| parts := ["users"; "foo"]; query := [] |}
                                0 user hello {[ "id" := "foo" ]} Route_empty
                                eq_refl Hroute)))).
  intros k q g Hk. lia.
Defined.

Lemma routes_passes_through_witness :
  routes (configure get_calls constructor) (request "GET" "/posts/1") downstream
    = Fulfilled (request "GET" "/posts/1").
Proof.
  apply (routes_passes_through (H := host)
           get_calls (request "GET" "/posts/1") downstream).
  right. right. exists GET, {| parts := ["posts"; "1"]; query := [] |}.
  split; [reflexivity |]. split; [reflexivity |].
  repeat constructor.
Defined.

(** C7 as stated fails on a GET request whose path holds a malformed
    escape: no pattern registered for GET parses the path, since
    [Route.parse] throws on it before any pattern is tried, and [routes()]
    throws the [URIError] instead of calling [next]. *)
Lemma routes_on_malformed_path_throws :
  Route_parse "/%" = inl URIError /\
  routes (configure get_calls constructor) (request "GET" "/%") downstream =
    Rejected URIError {| method := "GET"; path := "/%"; params := ∅; response := [] |} /\
  routes (configure get_calls constructor) (request "GET" "/%") downstream <>
    downstream (request "GET" "/%").
Proof.
  split; [vm_compute; reflexivity |].
  split; [vm_compute; reflexivity |].
  vm_compute. discriminate.
Qed.

(** C9 as stated fails on a GET request whose path holds a malformed
    escape: the freshly constructed router does not pass it through;
    [routes()] throws the [URIError] of [Route.parse], whatever [next]
    is. *)
Lemma fresh_router_on_malformed_path_throws :
  Route_parse "/%" = inl URIError /\
  routes (constructor : Router Mw) (request "GET" "/%") downstream =
    Rejected URIError {| method := "GET"; path := "/%"; params := ∅; response := [] |} /\
  routes (constructor : Router Mw) (request "GET" "/%") downstream <>
    downstream (request "GET" "/%") /\
  (forall next : Next Obj Writes Settled,
      routes (constructor : Router Mw) (request "GET" "/%") next =
        Rejected URIError (request "GET" "/%")).
Proof.
  split; [vm_compute; reflexivity |].
  split; [vm_compute; reflexivity |].
  split; [vm_compute; discriminate |].
  intros next. reflexivity.
Qed.

Lemma redirect_does_not_register_HEAD_witness :
  routes (configure redirect_and_get_calls constructor)
         (request "HEAD" "/john") downstream
    = Fulfilled (request "HEAD" "/john").
Proof.
  apply (proj2 (proj2 (proj2 (redirect_does_not_register_HEAD (H := host))))
           redirect_and_get_calls (request "HEAD" "/john") downstream
           {| parts := ["john"]; query := [] |} eq_refl eq_refl).
  repeat constructor.
Defined.

(** C6 as stated fails on a router with a redirect: the path [/john] is a
    redirect source, [get] was called for another pattern, and a GET
    request is redirected while the HEAD request on the same path selects
    no route and is handed to [next]. *)
Lemma HEAD_differs_from_GET_after_redirect :
  Route_parse "/john" = inr {| parts := ["john"]; query := [] |} /\
  is_Some (parse_or_null
             (slot (parsers (configure redirect_and_get_calls constructor)) GET)
             {| parts := ["john"]; query := [] |}) /\
  parse_or_null
    (slot (parsers (configure redirect_and_get_calls constructor)) HEAD)
    {| parts := ["john"]; query := [] |} = None /\
  routes (configure redirect_and_get_calls constructor)
         (request "GET" "/john") downstream =
    Fulfilled {| method := "GET"; path := "/john"; params := {[ "userID" := "john" ]};
                 response := [Redirect "/users/john"; SetStatus 302] |} /\
  routes (configure redirect_and_get_calls constructor)
         (request "HEAD" "/john") downstream = Fulfilled (request "HEAD" "/john").
Proof.
  split; [vm_compute; reflexivity |].
  split; [vm_compute; eexists; reflexivity |].
  split; [vm_compute; reflexivity |].
  split; vm_compute; reflexivity.
Qed.

Lemma get_registers_GET_and_HEAD_witness :
  slot (parsers (configure get_calls constructor)) HEAD =
  slot (parsers (configure get_calls constructor)) GET.
Proof.
  apply (proj2 (proj2 (get_registers_GET_and_HEAD (H := host) get_calls Route_empty))).
  repeat constructor.
Defined.

(** C8 as stated fails on three routers.  On the first the source pattern
    was registered for GET before the redirect: [GET /john] is parsed by
    the source pattern, yet the older handler answers and [ctx.redirect] is
    not called.  On the second a global middleware assigns 401 and returns
    without calling [next]: the redirect handler is not reached.  On the
    third the redirect was registered with the code 0: the handler calls
    [ctx.redirect], and the assignment of 0 to the status throws, so the
    final status is not the code. *)
Lemma redirect_can_be_preempted :
  Route_parse "/john" = inr {| parts := ["john"]; query := [] |} /\
  parser oldUser {| parts := ["john"]; query := [] |}
    = Some ({[ "userID" := "john" ]}, Route_empty) /\
  routes (configure shadowed_redirect_calls constructor)
         (request "GET" "/john") downstream =
    Fulfilled {| method := "GET"; path := "/john"; params := {[ "userID" := "john" ]};
                 response := [SetBody "profile"] |} /\
  routes (configure guarded_redirect_calls constructor)
         (request "GET" "/john") downstream =
    Fulfilled {| method := "GET"; path := "/john"; params := ∅;
                 response := [SetStatus 401] |} /\
  routes (configure zero_code_redirect_calls constructor)
         (request "GET" "/john") downstream =
    Rejected AssertionError
             {| method := "GET"; path := "/john"; params := {[ "userID" := "john" ]};
                response := [Redirect "/users/john"] |}.
Proof.
  split; [vm_compute; reflexivity |].
  split; [vm_compute; reflexivity |].
  split; [vm_compute; reflexivity |].
  split; vm_compute; reflexivity.
Qed.

Lemma redirect_redirects_witness :
  routes (configure get_then_redirect_calls constructor)
         (request "GET" "/john") downstream
    = Fulfilled {| method := "GET"; path := "/john"; params := {[ "userID" := "john" ]};
                   response := [Redirect "/users/john"; SetStatus 301] |}.
Proof.
  assert (Hsrc : parser oldUser {| parts := ["john"]; query := [] |}
                 = Some ({[ "userID" := "john" ]}, Route_empty))
    by (vm_compute; reflexivity).
  assert (Hin : GET ∈ [DELETE; GET; PATCH; POST; PUT]) by set_solver.
  assert (Hearlier :
            Forall (fun e => parser e.1 {| parts := ["john"]; query := [] |} = None)
                   (registered GET [CallGet (H := host) root (respond "Hello, world!")]))
    by (repeat constructor).
  destruct (redirect_redirects (H := host)
              get_then_redirect_calls
              [CallGet (H := host) root (respond "Hello, world!")] []
              oldUser newUser rename (Some 301) GET (request "GET" "/john") downstream
              {| parts := ["john"]; query := [] |}
              {[ "userID" := "john" ]} Route_empty
              eq_refl Hin eq_refl eq_refl Hearlier Hsrc) as (_ & _ & _ & Hplain & _).
  destruct (Hplain (Forall_nil_2 _) "/users/john") as (w & Hw & Hrun).
  - vm_compute. reflexivity.
  - simpl. lia.
  - rewrite Hrun. vm_compute in Hw. injection Hw as <-. reflexivity.
Defined.

(** * The further properties on concrete requests *)

Lemma call_leaves_other_methods_witness :
  routes (call (configure get_calls constructor)
               (CallRedirect oldUser newUser rename None))
         (request "HEAD" "/") downstream
    = routes (configure get_calls constructor) (request "HEAD" "/") downstream.
Proof.
  apply (call_leaves_other_methods (H := host)).
  - reflexivity.
  - intros m Em. destruct m; try discriminate Em. reflexivity.
Defined.

Lemma later_calls_keep_selected_route_witness :
  slot (parsers (configure twice_calls (configure get_calls constructor))) GET
       Route_empty
    = Some (inject (H := host) (respond "Hello, world!") ∅, Route_empty) /\
  routes (configure twice_calls (configure get_calls constructor))
         (request "GET" "/") downstream
    = Fulfilled {| method := "GET"; path := "/"; params := ∅;
                   response := [SetBody "Hello, world!"] |}.
Proof.
  destruct (later_calls_keep_selected_route (H := host)
              twice_calls (configure get_calls constructor) GET (request "GET" "/")
              Route_empty (inject (H := host) (respond "Hello, world!") ∅) Route_empty
              eq_refl eq_refl ltac:(vm_compute; reflexivity)) as [Hslot Hrun].
  split; [exact Hslot |].
  rewrite (Hrun downstream). vm_compute. reflexivity.
Defined.

Lemma allowed_iff_registered_pattern_witness :
  exists l : list RouteMethod,
    allowed (configure allowedMethods_calls constructor) "/" = inr l /\
    (forall m, m ∈ l <->
               Exists (fun e => is_Some (parser e.1 Route_empty))
                      (registered m allowedMethods_calls)) /\
    NoDup l.
Proof.
  exact (allowed_iff_registered_pattern (H := host)
           allowedMethods_calls "/" Route_empty eq_refl).
Defined.

Lemma HEAD_allowed_only_with_GET_witness :
  exists l : list RouteMethod,
    allowed (configure allowedMethods_calls constructor) "/" = inr l /\
    HEAD ∈ l /\ GET ∈ l.
Proof.
  destruct (HEAD_allowed_only_with_GET (H := host)
              allowedMethods_calls "/" Route_empty eq_refl)
    as (l & Hl & Hiff & Himp).
  assert (HHEAD : HEAD ∈ l).
  { apply Hiff. apply Exists_cons_hd. vm_compute. eexists. reflexivity. }
  exists l. split; [exact Hl |]. split; [exact HHEAD | exact (Himp HHEAD)].
Defined.

Lemma redirect_source_allows_five_witness :
  exists l : list RouteMethod,
    allowed (configure redirect_and_get_calls constructor) "/john" = inr l /\
    l = [DELETE; GET; PATCH; POST; PUT] /\
    allow_value l = "DELETE, GET, PATCH, POST, PUT".
Proof.
  destruct (redirect_source_allows_five (H := host)
              redirect_and_get_calls oldUser newUser rename None "/john"
              {| parts := ["john"]; query := [] |})
    as (l & Hl & _ & Hfive).
  - apply list_elem_of_here.
  - reflexivity.
  - vm_compute. eexists. reflexivity.
  - exists l. split; [exact Hl |]. apply Hfive. repeat constructor.
Defined.

Lemma allowedMethods_on_unrouted_path_witness :
  exists w : Writes,
    assign_status [] 405 = inr w /\
    allowedMethods (configure get_calls constructor) (request "PUT" "/posts/1") downstream
      = Fulfilled {| method := "PUT"; path := "/posts/1"; params := ∅;
                     response := w ++ [SetHeader "Allow" ""] |}.
Proof.
  destruct (proj2 (proj2 (allowedMethods_on_unrouted_path (H := host)
                            (configure get_calls constructor) (request "PUT" "/posts/1")
                            {| parts := ["posts"; "1"]; query := [] |} eq_refl
                            ltac:(intros []; vm_compute; reflexivity)))
              PUT eq_refl) as (w & Hw & Hrun).
  exists w. split; [exact Hw | exact (Hrun downstream)].
Defined.

Lemma mounted_answers_undispatched_requests_witness :
  (exists w : Writes,
     assign_status [] 405 = inr w /\
     mounted (configure get_calls constructor) (request "DELETE" "/") downstream
       = Fulfilled {| method := "DELETE"; path := "/"; params := ∅;
                      response := w ++ [SetHeader "Allow" "GET, HEAD"] |}) /\
  mounted (configure get_calls constructor) (request "GET" "/%") downstream
    = Rejected URIError (request "GET" "/%").
Proof.
  split.
  - destruct (proj1 (proj2 (proj2 (mounted_answers_undispatched_requests (H := host)
                              (configure get_calls constructor) (request "DELETE" "/"))))
                DELETE Route_empty eq_refl eq_refl ltac:(vm_compute; reflexivity))
      as (w & Hw & Hrun).
    exists w. split; [exact Hw |]. rewrite (Hrun downstream). vm_compute. reflexivity.
  - apply (proj2 (proj2 (proj2 (mounted_answers_undispatched_requests (H := host)
                              (configure get_calls constructor) (request "GET" "/%"))))
             URIError).
    + unfold recognized. set_solver.
    + vm_compute. reflexivity.
Defined.

Lemma mounted_passes_dispatched_request_on_witness :
  mounted (configure passing_calls constructor) (request "GET" "/") downstream
    = Fulfilled {| method := "GET"; path := "/"; params := ∅; response := [] |}.
Proof.
  apply (proj2 (proj2 (mounted_passes_dispatched_request_on (H := host)
                         (configure passing_calls constructor) (request "GET" "/")
                         downstream GET Route_empty
                         (inject (H := host) auth_present ∅) Route_empty
                         eq_refl eq_refl ltac:(vm_compute; reflexivity)))
           auth_present ∅ eq_refl).
  - intros ctx next. reflexivity.
  - repeat constructor.
Defined.

Lemma configuration_order_witness :
  routes (configure (use_calls auth_missing) constructor)
         (request "GET" "/") downstream
    = routes (configure (use_last_calls auth_missing) constructor)
             (request "GET" "/") downstream.
Proof.
  apply (configuration_order (H := host)
           (use_calls auth_missing) (use_last_calls auth_missing)
           (request "GET" "/") downstream).
  - reflexivity.
  - intros []; reflexivity.
Defined.

Lemma global_middleware_can_answer_witness :
  routes (configure (use_calls auth_missing) constructor)
         (request "GET" "/") downstream
    = Fulfilled {| method := "GET"; path := "/"; params := ∅;
                   response := [SetStatus 401] |}.
Proof.
  apply (global_middleware_can_answer (H := host)
           (use_calls auth_missing) [] auth_missing [] unauthorized
           (request "GET" "/") downstream GET Route_empty).
  - reflexivity.
  - constructor.
  - intros ctx next. reflexivity.
  - reflexivity.
  - reflexivity.
  - apply Exists_cons_hd. vm_compute. eexists. reflexivity.
Defined.

Lemma shadowed_route_is_never_selected_witness :
  routes (register GET user (respond "second") user_router)
         (request "GET" "/users/foo") downstream
    = routes user_router (request "GET" "/users/foo") downstream.
Proof.
  apply (proj1 (shadowed_route_is_never_selected (H := host)
                  GET user (respond "second") user_router)).
  intros route Hp.
  change (is_Some (route_parser user hello route)).
  apply route_parser_is_Some, Hp.
Defined.
